(** * TreasureHuntForm: the form component of hunter-app

    A shallow embedding of [src/components/TreasureHuntForm.tsx]: the
    component's [useState] cells become one record, every handler becomes a
    function on that record, the two [async] handlers are split at their
    single [await fetch(...)], and the browser functions the handlers call
    ([parseInt], the regular expressions, [JSON.stringify], the body of a
    [Response]) are modelled in the module [JS] below.

    Conventions of the model.
    - A JavaScript string is a [string]; its characters are the code units
      below 256.
    - A JavaScript number is a double.  The numbers of the component all
      come from [parseInt] or count the turns of a loop, so they are [NaN],
      an infinity, or a double whose value is an integer: [JS.number].
      [JS.toDouble] rounds an integer to the nearest double, and
      [JS.numberToString] writes a double as [String(x)] does, with the
      shortest digits that read back as the same double and the exponent
      notation from 1e21 on.
    - An array is a [list]; [Array(length)] throws for a length of 2^32 or
      more, which is [JS.newArray].  Time and memory are not bounded: below
      2^32 a grid of any size is made, and a loop of any number of turns
      ends.
    - [null] is [JNull]; [undefined] is [None] of an [option]. *)

From Stdlib Require Import ZArith Ascii String List Lia.
From stdpp Require Import base numbers option strings list gmap pretty.

Local Open Scope Z_scope.
Set Warnings "-register-all".

(** ** The JavaScript functions the component relies on *)

Module JS.

(** A number: [None] is [NaN], [Some z] is the double whose value is the
    integer [z] (one that [toDouble] leaves as it is), and the two
    infinities are [Some infinity] and [Some (- infinity)], where
    [infinity] is 2^1024, the first power of two that no double reaches:
    with it the order of [Z] is the order of the numbers. *)
Definition number := option Z.

Definition infinity : Z := 2 ^ 1024.

Definition isFinite (x : number) : bool :=
  match x with Some z => (- infinity <? z) && (z <? infinity) | None => false end.

(** The double nearest to a positive integer: the 53 leading bits, the
    rest rounded to nearest, a tie to the even neighbour; what reaches
    2^1024 is [Infinity]. *)
Definition roundPositive (z : Z) : Z :=
  if z <? 2 ^ 53 then z
  else
    let shift := Z.log2 z - 52 in
    let q := Z.shiftr z shift in
    let rest := z - Z.shiftl q shift in
    let half := Z.shiftl 1 (shift - 1) in
    let q' := if (half <? rest) || ((rest =? half) && Z.odd q) then q + 1 else q in
    Z.min (Z.shiftl q' shift) infinity.

(** The Number value for a mathematical integer. *)
Definition toDouble (z : Z) : Z :=
  if z <? 0 then - roundPositive (- z) else roundPositive z.

Definition isNaN (x : number) : bool :=
  match x with None => true | Some _ => false end.

(** The relational operators: every comparison with [NaN] is false. *)
Definition lt (x y : number) : bool :=
  match x, y with Some a, Some b => a <? b | _, _ => false end.
Definition le (x y : number) : bool :=
  match x, y with Some a, Some b => a <=? b | _, _ => false end.
Definition gt (x y : number) : bool := lt y x.

(** The number of decimal digits of a positive integer. *)
Definition digitCount (z : Z) : Z := Z.of_nat (String.length (pretty z)).

(** The integer [s] of [k] digits for which [s * 10^(n - k)] is read back
    as the double [x] of [n] digits, if there is one: the multiple of
    10^(n - k) just below [x] or the one just above, the nearer one when
    both do. *)
Definition candidate (x n k : Z) : option Z :=
  let unit := 10 ^ (n - k) in
  let low := x / unit in
  let high := low + 1 in
  let lowFits := toDouble (low * unit) =? x in
  let highFits := (high <? 10 ^ k) && (toDouble (high * unit) =? x) in
  if lowFits && highFits
  then Some (if x - low * unit <=? high * unit - x then low else high)
  else if lowFits then Some low
  else if highFits then Some high
  else None.

(** The least number of digits [k], from [k] on, that has a candidate. *)
Fixpoint shortest (x n k : Z) (tries : nat) : option (Z * Z) :=
  match tries with
  | O => None
  | S tries' =>
      match candidate x n k with
      | Some s => Some (s, k)
      | None => shortest x n (k + 1) tries'
      end
  end.

Definition zeros (k : Z) : string :=
  string_of_list_ascii (replicate (Z.to_nat k) "0"%char).

(** [Number::toString] for a double [x] of 2^53 or more, below
    [infinity]: with [s], [k] and [n] such that [s] has [k] digits, as few
    as possible, and [s * 10^(n - k)] is read back as [x], the digits of
    [s] and [n - k] zeros when [n] is at most 21, and the exponent
    notation otherwise.  Seventeen digits are always enough. *)
Definition positiveToString (x : Z) : string :=
  let n := digitCount x in
  let found :=
    if toDouble (10 ^ n) =? x then Some (1, 1, n + 1)
    else (fun sk => (sk, n)) <$> shortest x n 1 (Z.to_nat (Z.min n 17)) in
  match found with
  | Some (s, k, n) =>
      if n <=? 21 then pretty s +:+ zeros (n - k)
      else
        match pretty s with
        | String d EmptyString => String d ("e+" +:+ pretty (n - 1))
        | String d r => String d ("." +:+ r +:+ "e+" +:+ pretty (n - 1))
        | EmptyString => EmptyString
        end
  | None => pretty x
  end.

(** [String(x)] and [`${x}`] for a number.  Below 2^53 every integer is a
    double and its text is its decimal notation. *)
Definition numberToString (x : number) : string :=
  match x with
  | None => "NaN"
  | Some z =>
      if infinity <=? z then "Infinity"
      else if z <=? - infinity then "-Infinity"
      else if Z.abs z <? 2 ^ 53 then pretty z
      else if z <? 0 then "-" +:+ positiveToString (- z)
      else positiveToString z
  end.

#[global] Arguments numberToString : simpl never.
#[global] Arguments toDouble : simpl never.

Definition code (c : ascii) : nat := nat_of_ascii c.

(** [\d] *)
Definition isDigit (c : ascii) : bool :=
  (48 <=? code c)%nat && (code c <=? 57)%nat.

(** White space and line terminators below 256: TAB, LF, VT, FF, CR, SP
    and NBSP. *)
Definition isWhiteSpace (c : ascii) : bool :=
  ((9 <=? code c)%nat && (code c <=? 13)%nat)
  || (code c =? 32)%nat || (code c =? 160)%nat.

Definition digitValue (c : ascii) : Z := Z.of_nat (code c) - 48.

Fixpoint trimStart (s : string) : string :=
  match s with
  | String c r => if isWhiteSpace c then trimStart r else s
  | EmptyString => s
  end.

(** The integer written by the longest prefix of decimal digits, [acc]
    being the value read so far ([None]: no digit yet). *)
Fixpoint digitsPrefix (acc : number) (s : string) : number :=
  match s with
  | String c r =>
      if isDigit c
      then digitsPrefix (Some (10 * default 0 acc + digitValue c)) r
      else acc
  | EmptyString => acc
  end.

(** [parseInt(s, 10)]: leading white space is skipped, one sign is read,
    then the longest run of digits; [NaN] when there is no digit, and
    otherwise the double nearest to the integer the digits write (the
    standard lets an engine round the digits after the twentieth; the
    engines round the integer as a whole). *)
Definition parseInt (s : string) : number :=
  match trimStart s with
  | String "-" r => (fun z => toDouble (- z)) <$> digitsPrefix None r
  | String "+" r => toDouble <$> digitsPrefix None r
  | t => toDouble <$> digitsPrefix None t
  end.

(** [/^\d*$/.test(s)] *)
Fixpoint allDigits (s : string) : bool :=
  match s with
  | String c r => isDigit c && allDigits r
  | EmptyString => true
  end.

(** [/^[1-9]\d*$/.test(s)] *)
Definition positiveDigits (s : string) : bool :=
  match s with
  | String c r => isDigit c && negb (Ascii.eqb c "0") && allDigits r
  | EmptyString => false
  end.

(** [s.replace(/^0+/, '')] *)
Fixpoint stripLeadingZeros (s : string) : string :=
  match s with
  | String c r => if Ascii.eqb c "0" then stripLeadingZeros r else s
  | EmptyString => s
  end.

(** [s.startsWith('0')] *)
Definition startsWithZero (s : string) : bool :=
  match s with
  | String c _ => Ascii.eqb c "0"
  | EmptyString => false
  end.

(** [!s] for a string. *)
Definition isEmpty (s : string) : bool :=
  match s with EmptyString => true | _ => false end.

(** *** Values read from a JSON text

    What [JSON.parse] and [response.json()] return.  Number literals are
    restricted to integers: [JNum z] is the double of value [z].  An object
    lists its own properties in their
    enumeration order, each name once. *)
Inductive json : Type :=
| JNull
| JBool (b : bool)
| JNum (z : Z)
| JStr (s : string)
| JArr (items : list json)
| JObj (props : list (string * json)).

(** The message of a thrown [Error]; the component reads nothing else of
    what it catches. *)
Definition exn := string.

(** [Array(length)] for a length that is a number but not [NaN]: an array
    has a length from 0 to 2^32 - 1, any other length is refused with a
    [RangeError].  The value is the length of the new array. *)
Definition invalidArrayLength : exn := "Invalid array length".

Definition newArray (length : Z) : exn + nat :=
  if (length <? 0) || (2 ^ 32 <=? length) then inl invalidArrayLength
  else inr (Z.to_nat length).

(** [ToBoolean]: what [v || w] and [v && w] test. *)
Definition truthy (v : json) : bool :=
  match v with
  | JNull => false
  | JBool b => b
  | JNum z => negb (z =? 0)
  | JStr s => negb (isEmpty s)
  | JArr _ | JObj _ => true
  end.

Definition truthy_opt (v : option json) : bool :=
  match v with Some w => truthy w | None => false end.

Fixpoint lookupProp (k : string) (props : list (string * json)) : option json :=
  match props with
  | [] => None
  | (k', v) :: rest => if String.eqb k k' then Some v else lookupProp k rest
  end.

Definition nullMessage (k : string) : exn :=
  "Cannot read properties of null (reading '" +:+ k +:+ "')".

(** [v.k] for a property name [k] that no built-in prototype defines
    ([message], [title], [id], [minimumFuel]): reading from [null] throws
    a [TypeError], a primitive or an array has no such property. *)
Definition getProp (v : json) (k : string) : exn + option json :=
  match v with
  | JNull => inl (nullMessage k)
  | JObj props => inr (lookupProp k props)
  | _ => inr None
  end.

Definition notPrimitiveMessage : exn := "Cannot convert object to primitive value".

Fixpoint joinWith (sep : string) (l : list string) : string :=
  match l with
  | [] => EmptyString
  | [x] => x
  | x :: r => x +:+ sep +:+ joinWith sep r
  end.

Fixpoint sequence {A} (l : list (exn + A)) : exn + list A :=
  match l with
  | [] => inr []
  | inl e :: _ => inl e
  | inr x :: r => match sequence r with inl e => inl e | inr xs => inr (x :: xs) end
  end.

(** [String(v)] and [`${v}`].  An array joins its items with commas, [null]
    items as the empty string; an object answers through
    [Object.prototype.toString] unless an own property [toString] (never a
    function in parsed JSON) hides it, in which case the conversion throws
    a [TypeError]. *)
Fixpoint toString (v : json) : exn + string :=
  match v with
  | JNull => inr "null"
  | JBool true => inr "true"
  | JBool false => inr "false"
  | JNum z => inr (numberToString (Some z))
  | JStr s => inr s
  | JArr items =>
      match sequence (map (fun x => match x with JNull => inr EmptyString | _ => toString x end) items) with
      | inl e => inl e
      | inr parts => inr (joinWith "," parts)
      end
  | JObj props =>
      match lookupProp "toString" props with
      | Some _ => inl notPrimitiveMessage
      | None => inr "[object Object]"
      end
  end.

Definition quoteChar : ascii := ascii_of_nat 34.
Definition backslash : ascii := ascii_of_nat 92.

Definition hexDigit (d : nat) : ascii :=
  if (d <? 10)%nat then ascii_of_nat (48 + d) else ascii_of_nat (87 + d).

(** One character of a quoted JSON string. *)
Definition escapeChar (c : ascii) : string :=
  let k := code c in
  if (k =? 34)%nat then String backslash (String quoteChar EmptyString)
  else if (k =? 92)%nat then String backslash (String backslash EmptyString)
  else if (k =? 8)%nat then String backslash "b"
  else if (k =? 9)%nat then String backslash "t"
  else if (k =? 10)%nat then String backslash "n"
  else if (k =? 12)%nat then String backslash "f"
  else if (k =? 13)%nat then String backslash "r"
  else if (k <? 32)%nat then
    String backslash ("u00" +:+ String (hexDigit (k / 16)) (String (hexDigit (k mod 16)) EmptyString))
  else String c EmptyString.

Fixpoint escapeString (s : string) : string :=
  match s with
  | String c r => escapeChar c +:+ escapeString r
  | EmptyString => EmptyString
  end.

(** [JSON.stringify] of a string. *)
Definition quoteJSON (s : string) : string :=
  String quoteChar (escapeString s +:+ String quoteChar EmptyString).

(** [JSON.stringify(v)], without indentation. *)
Fixpoint stringify (v : json) : string :=
  match v with
  | JNull => "null"
  | JBool true => "true"
  | JBool false => "false"
  | JNum z => numberToString (Some z)
  | JStr s => quoteJSON s
  | JArr items => "[" +:+ joinWith "," (map stringify items) +:+ "]"
  | JObj props =>
      "{" +:+ joinWith "," (map (fun kv => quoteJSON (fst kv) +:+ ":" +:+ stringify (snd kv)) props) +:+ "}"
  end.

(** A number as [JSON.stringify] sees it: [NaN] and the infinities are
    written [null]. *)
Definition numberToJSON (x : number) : json :=
  match x with
  | Some z => if isFinite x then JNum z else JNull
  | None => JNull
  end.

#[global] Arguments numberToJSON : simpl never.

(** The text React puts in the page for a child [{v}] of an element:
    [undefined], [null] and booleans leave nothing, numbers and strings
    their text, an array its items one after the other; a plain object is
    refused with an error. *)
Definition notAChildMessage : exn := "Objects are not valid as a React child".

Fixpoint childText (v : json) : exn + string :=
  match v with
  | JNull | JBool _ => inr EmptyString
  | JNum z => inr (numberToString (Some z))
  | JStr s => inr s
  | JArr items =>
      match sequence (map childText items) with
      | inl e => inl e
      | inr parts => inr (joinWith EmptyString parts)
      end
  | JObj _ => inl notAChildMessage
  end.

Definition childText_opt (v : option json) : exn + string :=
  match v with Some w => childText w | None => inr EmptyString end.

End JS.

(** ** The answer of the server, as the Fetch API hands it over *)

Module Fetch.
Import JS.

(** A body: its text, and what [JSON.parse] makes of that text (a value, or
    the message of the [SyntaxError]). *)
Record Payload := { text : string; parse : exn + json }.

(** [status] is the status code, an [unsigned short], whose text is its
    decimal notation; [body = None] is a null body. *)
Record Response := {
  status : Z;
  statusText : string;
  body : option Payload
}.

(** [response.ok] *)
Definition ok (r : Response) : bool := (200 <=? status r) && (status r <=? 299).

(** How [await fetch(...)] ends: the promise rejects (no answer at all), or
    resolves with a response of any status. *)
Inductive Outcome :=
| Rejected (message : exn)
| Resolved (response : Response).

Record Request := {
  method : string;
  url : string;
  headers : list (string * string);
  payload : option string
}.

(** The rest of an [async] handler after its [fetch]: it may throw, and it
    carries the [bodyUsed] flag of the response it reads.  A body is a
    stream that is read once: [json()] and [text()] both consume it, and
    either of them rejects with a [TypeError] on a body already read. *)
Definition Task (A : Type) : Type := bool -> (exn + A) * bool.

#[global] Instance Task_ret : MRet Task := fun A x used => (inr x, used).
#[global] Instance Task_bind : MBind Task := fun A B f t used =>
  match t used with
  | (inl e, used') => (inl e, used')
  | (inr x, used') => f x used'
  end.

Definition throw {A} (e : exn) : Task A := fun used => (inl e, used).

(** [try { t } catch (e) { handler e }] *)
Definition tryCatch {A} (t : Task A) (handler : exn -> Task A) : Task A :=
  fun used =>
    match t used with
    | (inl e, used') => handler e used'
    | finished => finished
    end.

Definition liftE {A} (x : exn + A) : Task A := fun used => (x, used).

(** [await fetch(...)] *)
Definition awaitFetch (o : Outcome) : Task Response :=
  match o with
  | Rejected e => throw e
  | Resolved r => mret r
  end.

(** Wording of Chromium; every engine has a non-empty message here. *)
Definition alreadyRead (reader : string) : exn :=
  "Failed to execute '" +:+ reader +:+ "' on 'Response': body stream already read".
(** The [SyntaxError] of [JSON.parse] on the empty text. *)
Definition unexpectedEnd : exn := "Unexpected end of JSON input".

(** [await response.json()].  A null body reads as the empty text and is
    never used up. *)
Definition Response_json (r : Response) : Task json := fun used =>
  match body r with
  | None => (inl unexpectedEnd, used)
  | Some b => if used then (inl (alreadyRead "json"), used) else (parse b, true)
  end.

(** [await response.text()] *)
Definition Response_text (r : Response) : Task string := fun used =>
  match body r with
  | None => (inr EmptyString, used)
  | Some b => if used then (inl (alreadyRead "text"), used) else (inr (text b), true)
  end.

(** Runs a task on a fresh response. *)
Definition run {A} (t : Task A) : exn + A := fst (t false).

End Fetch.

(** ** The interfaces declared at the top of the component *)

Module TreasureHuntInput.
Import JS.

Record t := {
  n : number;
  m : number;
  p : number;
  matrix : list (list number)
}.

(** The object literal [{ n, m, p, matrix }] as [JSON.stringify] reads it. *)
Definition toJSON (d : t) : json :=
  JObj [("n", numberToJSON (n d));
        ("m", numberToJSON (m d));
        ("p", numberToJSON (p d));
        ("matrix", JArr (map (fun row => JArr (map numberToJSON row)) (matrix d)))].
End TreasureHuntInput.

Module ValidationErrors.
Import JS.

(** Every key is optional; [matrix] maps the key ["row-col"] of a cell to
    its message. *)
Record t := {
  n : option string;
  m : option string;
  p : option string;
  matrix : option (gmap string string)
}.

(** [{}] *)
Definition empty : t := {| n := None; m := None; p := None; matrix := None |}.

Definition truthyText (o : option string) : bool :=
  match o with Some msg => negb (isEmpty msg) | None => false end.

(** [!!errors[field]]: a message is truthy unless empty, an object always. *)
Definition has (e : t) (field : string) : bool :=
  if String.eqb field "n" then truthyText (n e)
  else if String.eqb field "m" then truthyText (m e)
  else if String.eqb field "p" then truthyText (p e)
  else if String.eqb field "matrix" then bool_decide (is_Some (matrix e))
  else false.

(** [delete errors[field]] *)
Definition delete (field : string) (e : t) : t :=
  if String.eqb field "n" then {| n := None; m := m e; p := p e; matrix := matrix e |}
  else if String.eqb field "m" then {| n := n e; m := None; p := p e; matrix := matrix e |}
  else if String.eqb field "p" then {| n := n e; m := m e; p := None; matrix := matrix e |}
  else if String.eqb field "matrix" then {| n := n e; m := m e; p := p e; matrix := None |}
  else e.

(** [{ ...e, matrix: mx }] *)
Definition withMatrix (mx : option (gmap string string)) (e : t) : t :=
  {| n := n e; m := m e; p := p e; matrix := mx |}.
End ValidationErrors.

(** ** The component *)

Module TreasureHuntForm.
Import JS Fetch.

(** The twelve [useState] cells. [result] and [searchResult] hold what the
    server sent, unchecked against their declared interfaces, or [null]. *)
Record State := {
  n : string;
  m : string;
  p : string;
  matrix : list (list string);
  result : json;
  error : option string;
  loading : bool;
  validationErrors : ValidationErrors.t;
  searchId : string;
  searchResult : json;
  searchError : option string;
  searching : bool
}.

Definition initial : State := {|
  n := EmptyString; m := EmptyString; p := EmptyString; matrix := [];
  result := JNull; error := None; loading := false;
  validationErrors := ValidationErrors.empty;
  searchId := EmptyString; searchResult := JNull; searchError := None;
  searching := false
|}.

Definition setN (v : string) (s : State) : State :=
  {| n := v; m := m s; p := p s; matrix := matrix s; result := result s;
     error := error s; loading := loading s; validationErrors := validationErrors s;
     searchId := searchId s; searchResult := searchResult s;
     searchError := searchError s; searching := searching s |}.
Definition setM (v : string) (s : State) : State :=
  {| n := n s; m := v; p := p s; matrix := matrix s; result := result s;
     error := error s; loading := loading s; validationErrors := validationErrors s;
     searchId := searchId s; searchResult := searchResult s;
     searchError := searchError s; searching := searching s |}.
Definition setP (v : string) (s : State) : State :=
  {| n := n s; m := m s; p := v; matrix := matrix s; result := result s;
     error := error s; loading := loading s; validationErrors := validationErrors s;
     searchId := searchId s; searchResult := searchResult s;
     searchError := searchError s; searching := searching s |}.
Definition setMatrix (v : list (list string)) (s : State) : State :=
  {| n := n s; m := m s; p := p s; matrix := v; result := result s;
     error := error s; loading := loading s; validationErrors := validationErrors s;
     searchId := searchId s; searchResult := searchResult s;
     searchError := searchError s; searching := searching s |}.
Definition setResult (v : json) (s : State) : State :=
  {| n := n s; m := m s; p := p s; matrix := matrix s; result := v;
     error := error s; loading := loading s; validationErrors := validationErrors s;
     searchId := searchId s; searchResult := searchResult s;
     searchError := searchError s; searching := searching s |}.
Definition setError (v : option string) (s : State) : State :=
  {| n := n s; m := m s; p := p s; matrix := matrix s; result := result s;
     error := v; loading := loading s; validationErrors := validationErrors s;
     searchId := searchId s; searchResult := searchResult s;
     searchError := searchError s; searching := searching s |}.
Definition setLoading (v : bool) (s : State) : State :=
  {| n := n s; m := m s; p := p s; matrix := matrix s; result := result s;
     error := error s; loading := v; validationErrors := validationErrors s;
     searchId := searchId s; searchResult := searchResult s;
     searchError := searchError s; searching := searching s |}.
Definition setValidationErrors (v : ValidationErrors.t) (s : State) : State :=
  {| n := n s; m := m s; p := p s; matrix := matrix s; result := result s;
     error := error s; loading := loading s; validationErrors := v;
     searchId := searchId s; searchResult := searchResult s;
     searchError := searchError s; searching := searching s |}.
Definition setSearchId (v : string) (s : State) : State :=
  {| n := n s; m := m s; p := p s; matrix := matrix s; result := result s;
     error := error s; loading := loading s; validationErrors := validationErrors s;
     searchId := v; searchResult := searchResult s;
     searchError := searchError s; searching := searching s |}.
Definition setSearchResult (v : json) (s : State) : State :=
  {| n := n s; m := m s; p := p s; matrix := matrix s; result := result s;
     error := error s; loading := loading s; validationErrors := validationErrors s;
     searchId := searchId s; searchResult := v;
     searchError := searchError s; searching := searching s |}.
Definition setSearchError (v : option string) (s : State) : State :=
  {| n := n s; m := m s; p := p s; matrix := matrix s; result := result s;
     error := error s; loading := loading s; validationErrors := validationErrors s;
     searchId := searchId s; searchResult := searchResult s;
     searchError := v; searching := searching s |}.
Definition setSearching (v : bool) (s : State) : State :=
  {| n := n s; m := m s; p := p s; matrix := matrix s; result := result s;
     error := error s; loading := loading s; validationErrors := validationErrors s;
     searchId := searchId s; searchResult := searchResult s;
     searchError := searchError s; searching := v |}.

(** The three numbers every render derives from the text fields. *)
Definition numN (s : State) : number := parseInt (n s).
Definition numM (s : State) : number := parseInt (m s).
Definition numP (s : State) : number := parseInt (p s).

(** [for (let i = 0; i < bound; i++) body], threading what the body
    assigns. *)
Definition forRange {A} (bound : nat) (body : nat -> A -> A) (a : A) : A :=
  fold_left (fun acc i => body i acc) (seq 0 bound) a.

(** A loop bound that is a number: nothing runs when it is [NaN] or not
    positive.  The counter of [for (let i = 0; i < x; i++)] reaches [x]
    when [x] is at most 2^53; beyond, [i++] no longer moves it and the loop
    of the code does not end: the component runs its loops on the
    dimensions of a grid, which are below 2^32 in every state it reaches
    ([tornDown]). *)
Definition iterations (x : number) : nat :=
  match x with Some z => Z.to_nat z | None => 0%nat end.

(** *** The effect on [n, m]: the grid follows the dimensions *)

(** [mx[i]?.[j]], and [mx[i][j]] where row [i] exists. *)
Definition cellAt (mx : list (list string)) (i j : nat) : option string :=
  mx !! i ≫= fun row => row !! j.

(** [mx[i]?.length ?? 0] *)
Definition rowLength (mx : list (list string)) (i : nat) : nat :=
  match mx !! i with Some row => length row | None => 0%nat end.

(** [mx[i][j] = v] on a cell that exists. *)
Definition assignCell (i j : nat) (v : string) (mx : list (list string)) : list (list string) :=
  alter (fun row => <[j := v]> row) i mx.

(** The body of the updater handed to [setMatrix] once its arrays are
    made: the grid of [rows] by [cols] empty strings (one new array per
    row), then the copy of the cells both grids have. *)
Definition copied (rows cols : nat) (prevMatrix : list (list string)) : list (list string) :=
  let newMatrix := replicate rows (replicate cols EmptyString) in
  forRange (Nat.min rows (length prevMatrix)) (fun i =>
    forRange (Nat.min cols (rowLength prevMatrix i)) (fun j newMatrix =>
      match cellAt prevMatrix i j with
      | Some v => assignCell i j v newMatrix
      | None => newMatrix
      end)) newMatrix.

(** The updater handed to [setMatrix].  [Array(numN)] throws before
    anything else is done; [Array(numM)] is called once for each row. *)
Definition resized (numN numM : Z) (prevMatrix : list (list string))
    : exn + list (list string) :=
  match newArray numN with
  | inl e => inl e
  | inr rows =>
      match (if (rows =? 0)%nat then inr 0%nat else newArray numM) with
      | inl e => inl e
      | inr cols => inr (copied rows cols prevMatrix)
      end
  end.

Definition validDimensions (s : State) : bool :=
  negb (isNaN (numN s)) && gt (numN s) (Some 0)
  && negb (isNaN (numM s)) && gt (numM s) (Some 0).

(** The effect, with the updater run.  When the updater throws, the
    matrix is not replaced: see [tornDown]. *)
Definition resizeEffect (s : State) : State :=
  if validDimensions s then
    let s1 :=
      match resized (default 0 (numN s)) (default 0 (numM s)) (matrix s) with
      | inr newMatrix => setMatrix newMatrix s
      | inl _ => s
      end in
    if bool_decide (is_Some (ValidationErrors.matrix (validationErrors s)))
    then setValidationErrors (ValidationErrors.withMatrix (Some ∅) (validationErrors s1)) s1
    else s1
  else setMatrix [] s.

(** The error that takes the page down.  React runs the updater while it
    renders; what the updater throws is caught by nothing, and React then
    removes the component from the page.  The effect runs whenever [n] or
    [m] change, so the dimensions of a state are both valid and too long
    for an array only when its page has been taken down. *)
Definition tornDown (s : State) : option exn :=
  if validDimensions s then
    match resized (default 0 (numN s)) (default 0 (numM s)) (matrix s) with
    | inl e => Some e
    | inr _ => None
    end
  else None.

(** *** The change handlers *)

(** The state setter handed to [handleNumericInputChange]. *)
Inductive Setter := SetN | SetM | SetP.

Definition apply (setter : Setter) : string -> State -> State :=
  match setter with SetN => setN | SetM => setM | SetP => setP end.

Definition handleNumericInputChange
    (setter : Setter) (field : string) (allowZero : bool)
    (value : string) (s : State) : State :=
  let regex := if allowZero then allDigits else positiveDigits in
  if isEmpty value || regex value then
    let s1 := apply setter value s in
    if ValidationErrors.has (validationErrors s) field
    then setValidationErrors (ValidationErrors.delete field (validationErrors s1)) s1
    else s1
  else if String.eqb value "0" && negb allowZero
          && negb (String.eqb field "n") && negb (String.eqb field "m")
          && negb (String.eqb field "p") then s
  else if negb allowZero && startsWithZero value && (1 <? String.length value)%nat
  then apply setter (stripLeadingZeros value) s
  else s.

(** [`${i}-${j}`], for two indices of the grid: they are below 2^32, and
    the text of such a number is its decimal notation. *)
Definition cellKey (i j : nat) : string := pretty i +:+ "-" +:+ pretty j.

(** The handler of the cell drawn at ([rowIndex], [colIndex]).  The
    renderer makes one for each cell the grid holds; for a row the grid
    lacks the assignment throws before any setter runs, and a column past
    the end of its row would leave holes in the row: both are [None].
    A value the test refuses changes nothing. *)
Definition handleMatrixCellChange
    (rowIndex colIndex : nat) (value : string) (s : State) : option State :=
  if isEmpty value || allDigits value then
    match cellAt (matrix s) rowIndex colIndex with
    | None => None
    | Some _ =>
      let s1 := setMatrix (assignCell rowIndex colIndex value (matrix s)) s in
      let key := cellKey rowIndex colIndex in
      match ValidationErrors.matrix (validationErrors s) with
      | Some shown =>
          if ValidationErrors.truthyText (shown !! key) then
            let matrixErrors :=
              base.delete key (default ∅ (ValidationErrors.matrix (validationErrors s1))) in
            Some (setValidationErrors
                    (ValidationErrors.withMatrix
                       (if bool_decide (matrixErrors = ∅) then None else Some matrixErrors)
                       (validationErrors s1)) s1)
          else Some s1
      | None => Some s1
      end
    end
  else Some s.

(** *** Validation *)

(** The body of the inner loop of [validateForm]. *)
Definition validateCell (s : State) (i j : nat)
    (acc : gmap string string * bool) : gmap string string * bool :=
  let cellValue := cellAt (matrix s) i j in
  let cellNum := cellValue ≫= parseInt in
  if bool_decide (cellValue = None) || bool_decide (cellValue = Some EmptyString) || isNaN cellNum
  then (<[cellKey i j := "Required"]> (fst acc), false)
  else if negb (isNaN (numP s)) && gt (numP s) (Some 0)
          && (lt cellNum (Some 1) || gt cellNum (numP s))
  then (<[cellKey i j := "Must be between 1 and " +:+ numberToString (numP s)]> (fst acc), false)
  else acc.

(** Returns [isValid] and the state after [setValidationErrors(errors)]. *)
Definition validateForm (s : State) : bool * State :=
  let errors := ValidationErrors.empty in
  let isValid := true in
  let '(errors, isValid) :=
    if isEmpty (n s) || le (numN s) (Some 0)
    then ({| ValidationErrors.n := Some "N must be a positive integer.";
             ValidationErrors.m := ValidationErrors.m errors;
             ValidationErrors.p := ValidationErrors.p errors;
             ValidationErrors.matrix := ValidationErrors.matrix errors |}, false)
    else (errors, isValid) in
  let '(errors, isValid) :=
    if isEmpty (m s) || le (numM s) (Some 0)
    then ({| ValidationErrors.n := ValidationErrors.n errors;
             ValidationErrors.m := Some "M must be a positive integer.";
             ValidationErrors.p := ValidationErrors.p errors;
             ValidationErrors.matrix := ValidationErrors.matrix errors |}, false)
    else (errors, isValid) in
  let '(errors, isValid) :=
    if isEmpty (p s) || le (numP s) (Some 0)
    then ({| ValidationErrors.n := ValidationErrors.n errors;
             ValidationErrors.m := ValidationErrors.m errors;
             ValidationErrors.p := Some "P must be a positive integer.";
             ValidationErrors.matrix := ValidationErrors.matrix errors |}, false)
    else (errors, isValid) in
  let '(matrixErrors, matrixIsValid) :=
    if gt (numN s) (Some 0) && gt (numM s) (Some 0) then
      forRange (iterations (numN s)) (fun i =>
        forRange (iterations (numM s)) (fun j => validateCell s i j))
        (∅, true)
    else (∅, true) in
  let '(errors, isValid) :=
    if negb matrixIsValid
    then (ValidationErrors.withMatrix (Some matrixErrors) errors, false)
    else (errors, isValid) in
  (isValid, setValidationErrors errors s).

(** *** The solve flow *)

Definition solveUrl : string := "https://localhost:7219/api/TreasureHunt/solve".

(** [handleSubmit] up to its [await fetch(...)]: the state it leaves and
    the requests it has sent. *)
Definition handleSubmit (s : State) : State * list Request :=
  let '(valid, s1) := validateForm s in
  if negb valid then (s1, [])
  else
    let s2 := setResult JNull (setError None (setLoading true s1)) in
    let parsedMatrix := map (map parseInt) (matrix s) in
    let inputData := {|
      TreasureHuntInput.n := numN s;
      TreasureHuntInput.m := numM s;
      TreasureHuntInput.p := numP s;
      TreasureHuntInput.matrix := parsedMatrix
    |} in
    (s2, [ {| method := "POST";
              url := solveUrl;
              headers := [("Content-Type", "application/json")];
              payload := Some (stringify (TreasureHuntInput.toJSON inputData)) |} ]).

(** [a || b] where [a] may be [undefined]. *)
Definition orElse (a : option json) (b : json) : json :=
  match a with
  | Some v => if truthy v then v else b
  | None => b
  end.

(** The [try] block of [handleSubmit] from the answer on; its value is the
    argument of [setResult]. *)
Definition solveAnswer (o : Outcome) : Task json :=
  response ← awaitFetch o;
  (if negb (ok response) then
     errorBody ← tryCatch
       (errorData ← Response_json response;
        message ← liftE (getProp errorData "message");
        title ← liftE (getProp errorData "title");
        mret (orElse message (orElse title (JStr (stringify errorData)))))
       (fun parseError =>
          raw ← Response_text response;
          mret (JStr raw));
     shown ← liftE (toString errorBody);
     throw ("HTTP error " +:+ pretty (status response) +:+ ": " +:+ shown)
   else mret ());;
  Response_json response.

(** [message || fallback] for the message of a caught error. *)
Definition messageOr (message fallback : string) : string :=
  if isEmpty message then fallback else message.

(** [handleSubmit] from the moment its [fetch] settles: [try], [catch],
    [finally]. *)
Definition handleSubmit_settled (o : Outcome) (s : State) : State :=
  let s1 :=
    match run (solveAnswer o) with
    | inr data => setResult data s
    | inl message =>
        setError (Some (messageOr message
                          "An error occurred while communicating with the server.")) s
    end in
  setLoading false s1.

(** *** The lookup flow *)

Definition lookupUrl (id : number) : string :=
  "https://localhost:7219/api/TreasureHunt/" +:+ numberToString id.

(** [handleSearch] up to its [await fetch(...)]. *)
Definition handleSearch (s : State) : State * list Request :=
  let id := parseInt (searchId s) in
  if isNaN id || le id (Some 0)
  then (setSearchError (Some "Please enter a valid positive ID number") s, [])
  else
    let s1 := setSearchResult JNull (setSearchError None (setSearching true s)) in
    (s1, [ {| method := "GET";
              url := lookupUrl id;
              headers := [("Accept", "application/json")];
              payload := None |} ]).

(** The [try] block of [handleSearch] from the answer on. *)
Definition lookupAnswer (o : Outcome) : Task json :=
  response ← awaitFetch o;
  (if negb (ok response) then
     let errorMessage := "Error: " +:+ pretty (status response) in
     errorMessage ← tryCatch
       (errorData ← Response_json response;
        message ← liftE (getProp errorData "message");
        title ← liftE (getProp errorData "title");
        mret (orElse message (orElse title (JStr errorMessage))))
       (fun e => mret (JStr (errorMessage +:+ " - " +:+ statusText response)));
     message ← liftE (toString errorMessage);
     throw message
   else mret ());;
  Response_json response.

Definition handleSearch_settled (o : Outcome) (s : State) : State :=
  let s1 :=
    match run (lookupAnswer o) with
    | inr data => setSearchResult data s
    | inl message => setSearchError (Some (messageOr message "Failed to fetch result")) s
    end in
  setSearching false s1.

(** *** What the renderer reads *)

Definition isFormPotentiallyValid (s : State) : bool :=
  negb (isNaN (numN s)) && gt (numN s) (Some 0)
  && negb (isNaN (numM s)) && gt (numM s) (Some 0)
  && negb (isNaN (numP s)) && gt (numP s) (Some 0)
  && bool_decide (Some (Z.of_nat (length (matrix s))) = numN s).

(** [disabled] of the Solve button and of the SEARCH button. *)
Definition solveDisabled (s : State) : bool :=
  loading s || negb (isFormPotentiallyValid s).
Definition searchDisabled (s : State) : bool :=
  searching s || isEmpty (searchId s).

(** A conditional block of the page: left out, drawn with its lines of
    text, or refused by React. *)
Inductive Block :=
| Hidden
| Shown (lines : list string)
| Refused (message : exn).

(** [{result && !loading && (<Alert severity="success">...)}].  A falsy
    [result] is itself the child: nothing is drawn for [null], [false] and
    the empty string, the digit for the number zero. *)
Definition resultAlert (s : State) : Block :=
  if truthy (result s) then
    if loading s then Hidden
    else
      match getProp (result s) "id", getProp (result s) "minimumFuel" with
      | inr id, inr minimumFuel =>
          match childText_opt id, childText_opt minimumFuel with
          | inr a, inr b => Shown ["Calculation ID: " +:+ a; "Minimum Fuel Required: " +:+ b]
          | inl e, _ | _, inl e => Refused e
          end
      | inl e, _ | _, inl e => Refused e
      end
  else
    match result s with
    | JNum z => Shown [pretty z]
    | _ => Hidden
    end.

(** [{error && !loading && (<Alert severity="error">Error: {error}</Alert>)}] *)
Definition errorAlert (s : State) : Block :=
  if ValidationErrors.truthyText (error s) && negb (loading s)
  then Shown ["Error: " +:+ default EmptyString (error s)]
  else Hidden.

(** *** The grid of inputs and the lookup panel *)

(** The props of one [TextField] of the grid that are not the same for
    every field, and [min]; [onChange] holds the two arguments of
    [handleMatrixCellChange]. *)
Module TextField.
Record t := {
  key : string;
  value : string;
  error : bool;
  helperText : option string;
  min : string;
  max : option string;
  onChange : nat * nat
}.
End TextField.

(** [validationErrors.matrix ? validationErrors.matrix[cellKey] : undefined] *)
Definition cellError (s : State) (cellKey : string) : option string :=
  match ValidationErrors.matrix (validationErrors s) with
  | Some shown => shown !! cellKey
  | None => None
  end.

(** What [renderMatrixInputs] returns: the line that asks for N and M, or
    the grid with its number of columns and one field per cell, row by
    row. *)
Inductive MatrixInputs :=
| EnterDimensions
| Grid (columns : number) (fields : list TextField.t).

Definition renderMatrixInputs (s : State) : MatrixInputs :=
  if isNaN (numN s) || le (numN s) (Some 0) || isNaN (numM s) || le (numM s) (Some 0)
  then EnterDimensions
  else
    Grid (numM s)
      (mjoin (imap (fun i row =>
                imap (fun j cell =>
                  {| TextField.key := cellKey i j;
                     TextField.value := cell;
                     TextField.error := ValidationErrors.truthyText (cellError s (cellKey i j));
                     TextField.helperText := cellError s (cellKey i j);
                     TextField.min := "1";
                     TextField.max :=
                       if negb (isNaN (numP s)) && gt (numP s) (Some 0)
                       then Some (numberToString (numP s)) else None;
                     TextField.onChange := (i, j) |}) row) (matrix s))).

(** [{searchError && !searchResult && !searching && (<Alert severity="error">...)}] *)
Definition searchErrorAlert (s : State) : Block :=
  if ValidationErrors.truthyText (searchError s) && negb (truthy (searchResult s))
     && negb (searching s)
  then Shown [default EmptyString (searchError s)]
  else Hidden.

(** *** The page over time

    One step is one event of the browser handled to the end: the handler
    runs on the state of the last render, React renders again, and the
    effect runs when [n] or [m] differ from the render before.  The two
    counters hold the requests that were sent and have not settled yet. *)
Record Page := {
  ui : State;
  pendingSolves : nat;
  pendingLookups : nat;
  sent : list Request
}.

Definition start : Page :=
  {| ui := initial; pendingSolves := 0; pendingLookups := 0; sent := [] |}.

Inductive Event :=
| ChangeN (value : string)
| ChangeM (value : string)
| ChangeP (value : string)
| ChangeCell (rowIndex colIndex : nat) (value : string)
| Blur
| ClickSolve
| SolveSettled (o : Outcome)
| ChangeSearchId (value : string)
| ClickSearch
| LookupSettled (o : Outcome).

(** The render after a handler, with the effect of the dependency list
    [[n, m]]. *)
Definition rendered (before after : State) : State :=
  if String.eqb (n before) (n after) && String.eqb (m before) (m after)
  then after else resizeEffect after.

Definition withUi (s : State) (pg : Page) : Page :=
  {| ui := s; pendingSolves := pendingSolves pg;
     pendingLookups := pendingLookups pg; sent := sent pg |}.

(** [None]: the page offers no such event in this state (a disabled
    button, a cell that is not drawn, no request to settle).  The page
    after an event holds the cells as the setters leave them, also when
    the render that follows throws: [tornDown] tells. *)
Definition step (pg : Page) (e : Event) : option Page :=
  let s := ui pg in
  match e with
  | ChangeN v => Some (withUi (rendered s (handleNumericInputChange SetN "n" false v s)) pg)
  | ChangeM v => Some (withUi (rendered s (handleNumericInputChange SetM "m" false v s)) pg)
  | ChangeP v => Some (withUi (rendered s (handleNumericInputChange SetP "p" false v s)) pg)
  | ChangeCell i j v =>
      if validDimensions s
      then (fun s' => withUi (rendered s s') pg) <$> handleMatrixCellChange i j v s
      else None
  | Blur => Some (withUi (rendered s (snd (validateForm s))) pg)
  | ClickSolve =>
      if solveDisabled s then None
      else
        let '(s', requests) := handleSubmit s in
        Some {| ui := rendered s s';
                pendingSolves := (pendingSolves pg + length requests)%nat;
                pendingLookups := pendingLookups pg;
                sent := sent pg ++ requests |}
  | SolveSettled o =>
      match pendingSolves pg with
      | O => None
      | S k =>
          Some {| ui := rendered s (handleSubmit_settled o s);
                  pendingSolves := k;
                  pendingLookups := pendingLookups pg;
                  sent := sent pg |}
      end
  | ChangeSearchId v => Some (withUi (rendered s (setSearchId v s)) pg)
  | ClickSearch =>
      if searchDisabled s then None
      else
        let '(s', requests) := handleSearch s in
        Some {| ui := rendered s s';
                pendingSolves := pendingSolves pg;
                pendingLookups := (pendingLookups pg + length requests)%nat;
                sent := sent pg ++ requests |}
  | LookupSettled o =>
      match pendingLookups pg with
      | O => None
      | S k =>
          Some {| ui := rendered s (handleSearch_settled o s);
                  pendingSolves := pendingSolves pg;
                  pendingLookups := k;
                  sent := sent pg |}
      end
  end.

(** The pages a user can bring about from a fresh mount: a page that
    has been taken down takes no further event. *)
Inductive reachable : Page -> Prop :=
| reachable_start : reachable start
| reachable_step pg e pg' :
    reachable pg -> step pg e = Some pg' -> tornDown (ui pg') = None -> reachable pg'.

(** Runs a list of events; [None] as soon as one is not offered or takes
    the page down. *)
Fixpoint run_events (pg : Page) (es : list Event) : option Page :=
  match es with
  | [] => Some pg
  | e :: rest =>
      match step pg e with
      | Some pg' =>
          match tornDown (ui pg') with
          | None => run_events pg' rest
          | Some _ => None
          end
      | None => None
      end
  end.

End TreasureHuntForm.

Import JS Fetch TreasureHuntForm.

(** ** Named inputs, expected values and invariants used below *)

Definition invalidIdMessage : string := "Please enter a valid positive ID number".

Definition lookupRequest (k : Z) : Request :=
  {| method := "GET";
     url := "https://localhost:7219/api/TreasureHunt/" +:+ numberToString (Some k);
     headers := [("Accept", "application/json")];
     payload := None |}.

Definition notFoundBody : Payload :=
  {| text := stringify (JObj [("message", JStr "not found")]);
     parse := inr (JObj [("message", JStr "not found")]) |}.

Definition notFound404 : Response :=
  {| status := 404; statusText := "Not Found"; body := Some notFoundBody |}.

Definition problem2x2 : json :=
  JObj [("n", JNum 2); ("m", JNum 2); ("p", JNum 3);
        ("matrix", JArr [JArr [JNum 1; JNum 2]; JArr [JNum 3; JNum 1]])].

(** The characters of [{"n":2,"m":2,"p":3,"matrix":[[1,2],[3,1]]}]. *)
Definition problem2x2_text : string :=
  "{" +:+ quoteJSON "n" +:+ ":2," +:+ quoteJSON "m" +:+ ":2," +:+ quoteJSON "p" +:+ ":3,"
      +:+ quoteJSON "matrix" +:+ ":[[1,2],[3,1]]}".

Definition answer5 : json := JObj [("id", JNum 5); ("minimumFuel", JNum 12)].

Definition solveRequest (text : string) : Request :=
  {| method := "POST";
     url := "https://localhost:7219/api/TreasureHunt/solve";
     headers := [("Content-Type", "application/json")];
     payload := Some text |}.

Definition success200 : Response :=
  {| status := 200; statusText := "OK";
     body := Some {| text := stringify answer5; parse := inr answer5 |} |}.

Definition oops500 : Response :=
  {| status := 500; statusText := "Internal Server Error";
     body := Some {| text := "oops"; parse := inl "Unexpected token 'o'" |} |}.

(** A grid of [rows] rows, each of [cols] cells. *)
Definition shaped (rows cols : nat) (mx : list (list string)) : Prop :=
  length mx = rows ∧ Forall (fun row => length row = cols) mx.

(** The inner loop of the copy in [copied]: row [i], columns below [bound]. *)
Definition copyRow (prevMatrix : list (list string)) (i : nat) (bound : nat)
    (newMatrix : list (list string)) : list (list string) :=
  forRange bound (fun j acc =>
    match cellAt prevMatrix i j with
    | Some v => assignCell i j v acc
    | None => acc
    end) newMatrix.

(** [s'] has the dimensions and the grid of [s]. *)
Definition sameGrid (s s' : State) : Prop :=
  n s' = n s ∧ m s' = m s ∧ matrix s' = matrix s.

Ltac frame :=
  repeat (simpl; case_match); simpl; done.

Definition gridMatches (s : State) : Prop :=
  if validDimensions s
  then shaped (iterations (numN s)) (iterations (numM s)) (matrix s)
  else matrix s = [].

Definition typed2x2 : list Event :=
  [ChangeN "2"; ChangeM "2"; ChangeCell 0 0 "7"; ChangeCell 1 1 "9"].

Definition typed2x2_page : Page :=
  withUi (setMatrix [["7"; ""]; [""; "9"]] (setM "2" (setN "2" initial))) start.

(** The busy flag counts the request in flight. *)
Definition solveInvariant (pg : Page) : Prop :=
  pendingSolves pg = if loading (ui pg) then 1%nat else 0%nat.

Definition solving2x2 : list Event :=
  [ChangeN "2"; ChangeM "2"; ChangeP "3"; ChangeCell 0 0 "1"; ChangeCell 0 1 "2";
   ChangeCell 1 0 "3"; ChangeCell 1 1 "1"; ClickSolve].

Definition solving2x2_page : Page :=
  {| ui := setLoading true
             (setMatrix [["1"; "2"]; ["3"; "1"]] (setP "3" (setM "2" (setN "2" initial))));
     pendingSolves := 1; pendingLookups := 0;
     sent := [solveRequest (stringify problem2x2)] |}.

Definition filled2x2 : State :=
  setMatrix [["1"; "2"]; ["3"; "1"]] (setP "3" (setM "2" (setN "2" initial))).

(** The message [validateForm] has for the cell ([i], [j]) when P is the
    positive number [cap]: the two branches of the inner loop. *)
Definition cellMessage (s : State) (cap : Z) (i j : nat) : option string :=
  match cellAt (matrix s) i j ≫= parseInt with
  | None => Some "Required"
  | Some k =>
      if (1 <=? k) && (k <=? cap) then None
      else Some ("Must be between 1 and " +:+ numberToString (Some cap))
  end.

(** What the two loops of [validateForm] hold after the cells of [visited]:
    an entry for each visited cell that has a message, no other entry, and
    the flag still up when no visited cell has one. *)
Definition flagged (s : State) (cap : Z) (visited : nat → nat → Prop)
    (acc : gmap string string * bool) : Prop :=
  (∀ i j msg, visited i j → cellMessage s cap i j = Some msg →
     fst acc !! cellKey i j = Some msg)
  ∧ (∀ key msg, fst acc !! key = Some msg →
       ∃ i j, visited i j ∧ key = cellKey i j ∧ cellMessage s cap i j = Some msg)
  ∧ (snd acc = true ↔ ∀ i j, visited i j → cellMessage s cap i j = None).

Definition oneBadCell : State :=
  setMatrix [["1"; ""]; ["9"; "1"]] (setP "3" (setM "2" (setN "2" initial))).

(** Every cell of a grid is a text of digits, the empty text included. *)
Definition cellsAreDigits (mx : list (list string)) : Prop :=
  ∀ i j v, cellAt mx i j = Some v → allDigits v = true.

(** None of the three text fields starts with a zero. *)
Definition noLeadingZero (s : State) : Prop :=
  startsWithZero (n s) = false ∧ startsWithZero (m s) = false ∧ startsWithZero (p s) = false.

Definition typedFraction : list Event :=
  [ChangeN "0.5"; ChangeM "2"; ChangeP "3"; Blur].

Definition typedFraction_page : Page :=
  withUi (setP "3" (setM "2" (setN ".5" initial))) start.

(** [oneBadCell] after its validation and the edit of the empty cell. *)
Definition editedCell : State :=
  setValidationErrors
    (ValidationErrors.withMatrix (Some {["1-0" := "Must be between 1 and 3"]})
       ValidationErrors.empty)
    (setMatrix [["1"; "2"]; ["9"; "1"]] oneBadCell).

Definition badRequestProps : list (string * json) :=
  [("title", JStr "Bad Request"); ("status", JNum 400)].

Definition badRequest400 : Response :=
  {| status := 400; statusText := "Bad Request";
     body := Some {| text := stringify (JObj badRequestProps);
                     parse := inr (JObj badRequestProps) |} |}.

Definition noContent204 : Response :=
  {| status := 204; statusText := "No Content"; body := None |}.

(** The cells of the state that belong to the solve panel, and those of the
    lookup panel. *)
Definition solvePanel (s : State) :=
  (n s, m s, p s, matrix s, result s, error s, loading s, validationErrors s).
Definition lookupPanel (s : State) :=
  (searchId s, searchResult s, searchError s, searching s).

(** What the two alerts of the solve panel read. *)
Definition solveOutcome (s : State) := (result s, error s, loading s).

(** The busy flag of the lookup counts the request in flight. *)
Definition lookupInvariant (pg : Page) : Prop :=
  pendingLookups pg = if searching (ui pg) then 1%nat else 0%nat.

(** While a solve request is in flight there is neither a result nor an
    error, and there are never both. *)
Definition alertsInvariant (s : State) : Prop :=
  (loading s = true → result s = JNull ∧ error s = None)
  ∧ (result s = JNull ∨ error s = None).

Definition looking5 : list Event := [ChangeSearchId "5"; ClickSearch].

Definition looking5_page : Page :=
  {| ui := setSearching true (setSearchId "5" initial);
     pendingSolves := 0; pendingLookups := 1; sent := [lookupRequest 5] |}.

Definition staleResult : list Event :=
  [ChangeSearchId "5"; ClickSearch; LookupSettled (Resolved success200);
   ChangeSearchId "0"; ClickSearch].

Definition staleResult_page : Page :=
  {| ui := setSearchError (Some "Please enter a valid positive ID number")
             (setSearchResult answer5 (setSearchId "0" initial));
     pendingSolves := 0; pendingLookups := 0; sent := [lookupRequest 5] |}.

(** The 2 by 2 grid of [typed2x2_page] after a blur, its two empty cells
    flagged, and the same page after N is changed to 3. *)
Definition blurred2x2_page : Page :=
  withUi (snd (validateForm (ui typed2x2_page))) typed2x2_page.

Definition widened_page : Page :=
  withUi (rendered (ui blurred2x2_page)
            (handleNumericInputChange SetN "n" false "3" (ui blurred2x2_page)))
    blurred2x2_page.

Example parseInt_007 : JS.parseInt "007" = Some 7.
Proof. reflexivity. Qed.
Example parseInt_frac : JS.parseInt "3.9" = Some 3.
Proof. reflexivity. Qed.
Example parseInt_neg : JS.parseInt " -12px" = Some (-12).
Proof. reflexivity. Qed.
Example parseInt_none : JS.parseInt ".5" = None.
Proof. reflexivity. Qed.
Example pretty_ex : JS.numberToString (Some 120) = "120".
Proof. reflexivity. Qed.

(** Beyond 2^53 [parseInt] rounds, to even at a tie, and a text of 309
    digits or more is [Infinity]. *)
Example parseInt_rounds :
  JS.parseInt "9007199254740993" = Some 9007199254740992
  ∧ JS.parseInt "9007199254740995" = Some 9007199254740996
  ∧ JS.isFinite (JS.parseInt ("1" +:+ JS.zeros 308)) = true
  ∧ JS.parseInt ("1" +:+ JS.zeros 309) = Some JS.infinity.
Proof. by vm_compute. Qed.

Example numberToString_large :
  JS.numberToString (Some 9007199254740992) = "9007199254740992"
  ∧ JS.numberToString (Some (2 ^ 60)) = "1152921504606847000"
  ∧ JS.numberToString (Some (10 ^ 21 - 2 ^ 17)) = "999999999999999900000"
  ∧ JS.numberToString (Some (10 ^ 21)) = "1e+21"
  ∧ JS.numberToString (Some (123456789 * 2 ^ 47)) = "1.7374998404273686e+22"
  ∧ JS.numberToString (JS.parseInt ("1" +:+ JS.zeros 308)) = "1e+308"
  ∧ JS.numberToString (Some JS.infinity) = "Infinity"
  ∧ JS.numberToString (Some (- 2 ^ 60)) = "-1152921504606847000".
Proof. by vm_compute. Qed.

Example numberToJSON_ex :
  JS.stringify (JS.numberToJSON (Some 3)) = "3"
  ∧ JS.stringify (JS.numberToJSON None) = "null"
  ∧ JS.stringify (JS.numberToJSON (Some JS.infinity)) = "null".
Proof. by vm_compute. Qed.

Example stringify_ex :
  JS.stringify (JS.JObj [("a", JS.JArr [JS.JNum 1; JS.JNull]); ("b", JS.JStr "x")])
  = "{" +:+ JS.quoteJSON "a" +:+ ":[1,null]," +:+ JS.quoteJSON "b" +:+ ":" +:+ JS.quoteJSON "x" +:+ "}".
Proof. reflexivity. Qed.
Example toString_ex : JS.toString (JS.JArr [JS.JNum 1; JS.JNull; JS.JArr [JS.JStr "a"; JS.JBool true]]) = inr "1,,a,true".
Proof. reflexivity. Qed.

(** ** Rounding to a double *)


Lemma infinity_positive : 2 ^ 53 < infinity.
Proof. reflexivity. Qed.

(** Rounding to a double keeps the sign, and the integers below 2^53 as
    they are. *)
Lemma roundPositive_positive (z : Z) : 0 < z → 0 < roundPositive z.
Proof.
  intros Hz. unfold roundPositive. destruct (Z.ltb_spec z (2 ^ 53)); [done |].
  assert (53 ≤ Z.log2 z) by (apply Z.log2_le_pow2; lia).
  assert (0 < Z.shiftr z (Z.log2 z - 52)) as Hq.
  { rewrite Z.shiftr_div_pow2 by lia. apply Z.div_str_pos. split.
    - apply Z.pow_pos_nonneg; lia.
    - transitivity (2 ^ Z.log2 z); [apply Z.pow_le_mono_r; lia | apply Z.log2_spec; lia]. }
  pose proof infinity_positive. apply Z.min_glb_lt; [| lia].
  rewrite Z.shiftl_mul_pow2 by lia. apply Z.mul_pos_pos.
  - case_match; lia.
  - apply Z.pow_pos_nonneg; lia.
Qed.

Lemma toDouble_positive (z : Z) : 0 < z → 0 < toDouble z.
Proof.
  intros Hz. unfold toDouble. destruct (Z.ltb_spec z 0); [lia |].
  by apply roundPositive_positive.
Qed.

Lemma toDouble_nonnegative (z : Z) : 0 ≤ z → 0 ≤ toDouble z.
Proof.
  intros Hz. destruct (decide (z = 0)) as [-> | Hne]; [done |].
  apply Z.lt_le_incl, toDouble_positive. lia.
Qed.

Lemma toDouble_safe (z : Z) : - 2 ^ 53 < z < 2 ^ 53 → toDouble z = z.
Proof.
  intros Hz. unfold toDouble, roundPositive. destruct (Z.ltb_spec z 0).
  - destruct (Z.ltb_spec (- z) (2 ^ 53)); lia.
  - destruct (Z.ltb_spec z (2 ^ 53)); lia.
Qed.

Lemma roundPositive_exact (q shift : Z) :
  2 ^ 52 ≤ q < 2 ^ 53 → 0 ≤ shift → q * 2 ^ shift < infinity →
  roundPositive (q * 2 ^ shift) = q * 2 ^ shift.
Proof.
  intros Hq Hshift Hfinite. unfold roundPositive.
  destruct (Z.ltb_spec (q * 2 ^ shift) (2 ^ 53)) as [| Hbig]; [done |].
  assert (1 ≤ shift) as Hne.
  { destruct (decide (shift = 0)) as [-> | ?]; [| lia]. rewrite Z.pow_0_r in Hbig. lia. }
  assert (0 < 2 ^ shift) as Hpow by (apply Z.pow_pos_nonneg; lia).
  assert (0 < 2 ^ (shift - 1)) as Hhalf by (apply Z.pow_pos_nonneg; lia).
  assert (Z.log2 q = 52) as Hlog by (apply Z.log2_unique; lia).
  assert (Z.log2 (q * 2 ^ shift) = 52 + shift) as ->.
  { rewrite Z.log2_mul_pow2 by lia. lia. }
  replace (52 + shift - 52) with shift by lia.
  rewrite Z.shiftr_div_pow2, Z.div_mul by lia.
  rewrite !Z.shiftl_mul_pow2 by lia.
  replace (q * 2 ^ shift - q * 2 ^ shift) with 0 by lia.
  destruct (Z.ltb_spec (1 * 2 ^ (shift - 1)) 0); [lia |].
  destruct (Z.eqb_spec 0 (1 * 2 ^ (shift - 1))); [lia |]. simpl. lia.
Qed.

(** The value of [roundPositive]: a small integer, 53 bits followed by
    zeros, or [infinity]. *)
Lemma roundPositive_cases (z : Z) :
  0 < z →
  (roundPositive z = z ∧ z < 2 ^ 53)
  ∨ (∃ q shift, 2 ^ 52 ≤ q < 2 ^ 53 ∧ 0 ≤ shift ∧ q * 2 ^ shift < infinity
                ∧ roundPositive z = q * 2 ^ shift)
  ∨ roundPositive z = infinity.
Proof.
  intros Hz. unfold roundPositive.
  destruct (Z.ltb_spec z (2 ^ 53)) as [Hsmall | Hbig]; [by left | right].
  assert (53 ≤ Z.log2 z) as Hlog by (apply Z.log2_le_pow2; lia).
  set (shift := Z.log2 z - 52). assert (1 ≤ shift) as Hshift by (unfold shift; lia).
  set (q := Z.shiftr z shift).
  assert (2 ^ 52 ≤ q < 2 ^ 53) as Hq.
  { unfold q. rewrite Z.shiftr_div_pow2 by lia.
    assert (0 < 2 ^ shift) by (apply Z.pow_pos_nonneg; lia).
    pose proof (Z.log2_spec z Hz) as [Hlo Hhi].
    replace (Z.log2 z) with (52 + shift) in Hlo by (unfold shift; lia).
    replace (Z.succ (Z.log2 z)) with (53 + shift) in Hhi by (unfold shift; lia).
    rewrite Z.pow_add_r in Hlo, Hhi by lia. split.
    - apply Z.div_le_lower_bound; lia.
    - apply Z.div_lt_upper_bound; lia. }
  match goal with
  | |- context [if ?c then q + 1 else q] => set (q' := if c then q + 1 else q)
  end.
  assert (q' = q ∨ q' = q + 1) as Hq' by (unfold q'; case_match; auto).
  rewrite (Z.shiftl_mul_pow2 q') by lia.
  destruct (Z.min_spec (q' * 2 ^ shift) infinity) as [[Hfinite ->] | [Hinf ->]];
    [left | by right].
  destruct (decide (q' = 2 ^ 53)) as [Htop | Hbelow].
  - exists (2 ^ 52), (shift + 1). rewrite Htop in Hfinite |- *.
    rewrite (Z.pow_add_r 2 shift 1) by lia. repeat split; lia.
  - exists q', shift. repeat split; lia.
Qed.

Lemma roundPositive_idempotent (z : Z) :
  0 < z → roundPositive (roundPositive z) = roundPositive z.
Proof.
  intros Hz.
  destruct (roundPositive_cases z Hz)
    as [[-> Hsmall] | [(q & shift & Hq & Hshift & Hfinite & ->) | ->]].
  - unfold roundPositive. destruct (Z.ltb_spec z (2 ^ 53)); [done | lia].
  - by apply roundPositive_exact.
  - reflexivity.
Qed.

Lemma toDouble_negative (z : Z) : z < 0 → toDouble z = - roundPositive (- z).
Proof. intros Hz. unfold toDouble. destruct (Z.ltb_spec z 0); [done | lia]. Qed.

Lemma toDouble_not_negative (z : Z) : 0 ≤ z → toDouble z = roundPositive z.
Proof. intros Hz. unfold toDouble. destruct (Z.ltb_spec z 0); [lia | done]. Qed.

(** What [toDouble] gives is a double: rounding it again changes nothing. *)
Lemma toDouble_idempotent (z : Z) : toDouble (toDouble z) = toDouble z.
Proof.
  destruct (Z.lt_ge_cases z 0) as [Hneg | Hpos].
  - pose proof (roundPositive_positive (- z)).
    rewrite (toDouble_negative z), toDouble_negative, Z.opp_involutive by lia.
    rewrite roundPositive_idempotent by lia. done.
  - destruct (decide (z = 0)) as [-> | ?]; [done |].
    pose proof (roundPositive_positive z).
    rewrite (toDouble_not_negative z), toDouble_not_negative by lia.
    apply roundPositive_idempotent. lia.
Qed.

(** [parseInt] returns [NaN], a double, or an infinity. *)
Lemma parseInt_is_double (v : string) (k : Z) : parseInt v = Some k → toDouble k = k.
Proof.
  unfold parseInt. intros H.
  repeat (case_match; simplify_eq);
    match goal with
    | H : _ <$> ?x = Some _ |- _ => destruct x; simpl in H; simplify_eq
    end; apply toDouble_idempotent.
Qed.

(** ** Facts about the setters and the effect *)

Section SetterFacts.
Variable s : State.

Lemma resizeEffect_n : n (resizeEffect s) = n s.
Proof. unfold resizeEffect. repeat case_match; reflexivity. Qed.

Lemma resizeEffect_m : m (resizeEffect s) = m s.
Proof. unfold resizeEffect. repeat case_match; reflexivity. Qed.

Lemma resizeEffect_p : p (resizeEffect s) = p s.
Proof. unfold resizeEffect. repeat case_match; reflexivity. Qed.

Lemma resizeEffect_loading : loading (resizeEffect s) = loading s.
Proof. unfold resizeEffect. repeat case_match; reflexivity. Qed.

Lemma rendered_same : rendered s s = s.
Proof. unfold rendered. by rewrite !String.eqb_refl. Qed.

Lemma rendered_n before : n (rendered before s) = n s.
Proof. unfold rendered. case_match; [done | apply resizeEffect_n]. Qed.

Lemma rendered_m before : m (rendered before s) = m s.
Proof. unfold rendered. case_match; [done | apply resizeEffect_m]. Qed.

Lemma rendered_p before : p (rendered before s) = p s.
Proof. unfold rendered. case_match; [done | apply resizeEffect_p]. Qed.

Lemma rendered_loading before : loading (rendered before s) = loading s.
Proof. unfold rendered. case_match; [done | apply resizeEffect_loading]. Qed.
End SetterFacts.

Lemma withUi_same pg : withUi (ui pg) pg = pg.
Proof. by destruct pg. Qed.

(** ** The text fields N, M and P *)

(** C6. One change event that delivers ["007"] to the N field leaves
    [n = "7"], and one that delivers ["0"] changes nothing at all; the same
    for the M and the P field.  Stated for the handler and for the whole
    step of the page (handler, render and effect). *)
Theorem leading_zeros_stripped_and_zero_rejected (pg : Page) :
  (n (handleNumericInputChange SetN "n" false "007" (ui pg)) = "7"
   ∧ handleNumericInputChange SetN "n" false "0" (ui pg) = ui pg
   ∧ (∃ pg', step pg (ChangeN "007") = Some pg' ∧ n (ui pg') = "7")
   ∧ step pg (ChangeN "0") = Some pg)
  ∧ (m (handleNumericInputChange SetM "m" false "007" (ui pg)) = "7"
     ∧ handleNumericInputChange SetM "m" false "0" (ui pg) = ui pg
     ∧ (∃ pg', step pg (ChangeM "007") = Some pg' ∧ m (ui pg') = "7")
     ∧ step pg (ChangeM "0") = Some pg)
  ∧ (p (handleNumericInputChange SetP "p" false "007" (ui pg)) = "7"
     ∧ handleNumericInputChange SetP "p" false "0" (ui pg) = ui pg
     ∧ (∃ pg', step pg (ChangeP "007") = Some pg' ∧ p (ui pg') = "7")
     ∧ step pg (ChangeP "0") = Some pg).
Proof.
  repeat split; try reflexivity.
  - eexists. split; [reflexivity |]. simpl. by rewrite rendered_n.
  - simpl. change (handleNumericInputChange SetN "n" false "0" (ui pg)) with (ui pg).
    by rewrite rendered_same, withUi_same.
  - eexists. split; [reflexivity |]. simpl. by rewrite rendered_m.
  - simpl. change (handleNumericInputChange SetM "m" false "0" (ui pg)) with (ui pg).
    by rewrite rendered_same, withUi_same.
  - eexists. split; [reflexivity |]. simpl. by rewrite rendered_p.
  - simpl. change (handleNumericInputChange SetP "p" false "0" (ui pg)) with (ui pg).
    by rewrite rendered_same, withUi_same.
Qed.

(** ** The lookup flow *)

(** C8. When [searchId] does not parse to a positive integer, [handleSearch]
    sets [searchError] to the fixed message, sends nothing, and leaves every
    other cell of the state as it was. *)
Theorem handleSearch_guard (s : State) :
  (¬ ∃ k, parseInt (searchId s) = Some k ∧ 0 < k) →
  handleSearch s = (setSearchError (Some invalidIdMessage) s, [])
  ∧ searchError (fst (handleSearch s)) = Some invalidIdMessage
  ∧ snd (handleSearch s) = []
  ∧ searchResult (fst (handleSearch s)) = searchResult s
  ∧ searching (fst (handleSearch s)) = searching s
  ∧ result (fst (handleSearch s)) = result s
  ∧ error (fst (handleSearch s)) = error s
  ∧ loading (fst (handleSearch s)) = loading s
  ∧ validationErrors (fst (handleSearch s)) = validationErrors s.
Proof.
  intros Hbad.
  assert (handleSearch s = (setSearchError (Some invalidIdMessage) s, [])) as ->.
  { unfold handleSearch. destruct (parseInt (searchId s)) as [k|] eqn:Hk; [| done].
    simpl. destruct (Z.leb_spec k 0) as [_ | Hpos]; [done |].
    destruct Hbad. eauto. }
  done.
Qed.

Lemma handleSearch_guard_witness :
  handleSearch (setSearchId "-4" initial)
  = (setSearchError (Some invalidIdMessage) (setSearchId "-4" initial), [])
  ∧ searchError (fst (handleSearch (setSearchId "-4" initial))) = Some invalidIdMessage
  ∧ snd (handleSearch (setSearchId "-4" initial)) = []
  ∧ searchResult (fst (handleSearch (setSearchId "-4" initial))) = JNull
  ∧ searching (fst (handleSearch (setSearchId "-4" initial))) = false
  ∧ result (fst (handleSearch (setSearchId "-4" initial))) = JNull
  ∧ error (fst (handleSearch (setSearchId "-4" initial))) = None
  ∧ loading (fst (handleSearch (setSearchId "-4" initial))) = false
  ∧ validationErrors (fst (handleSearch (setSearchId "-4" initial))) = ValidationErrors.empty.
Proof.
  apply (handleSearch_guard (setSearchId "-4" initial)).
  intros [k [Hk Hpos]]. vm_compute in Hk. injection Hk as <-. lia.
Defined.

(** C10, as amended.  The Result ID field stores whatever string it is
    given, and for every string [v] that [parseInt] reads as a positive
    number [k], [handleSearch] sends one GET to the lookup address followed
    by [String(k)]: the decimal notation of the integer [k] when [k] is
    below 2^53, and the text JavaScript has for the double [k] otherwise. *)
Theorem handleSearch_uses_parsed_id (pg : Page) (v : string) :
  (step pg (ChangeSearchId v) = Some (withUi (setSearchId v (ui pg)) pg)
   ∧ searchId (setSearchId v (ui pg)) = v)
  ∧ ∀ k, parseInt v = Some k → 0 < k →
      snd (handleSearch (setSearchId v (ui pg)))
      = [ {| method := "GET";
             url := "https://localhost:7219/api/TreasureHunt/" +:+ numberToString (Some k);
             headers := [("Accept", "application/json")];
             payload := None |} ]
      ∧ (k < 2 ^ 53 → numberToString (Some k) = pretty k).
Proof.
  split; [split; [| done] |].
  - simpl. unfold rendered. simpl. by rewrite !String.eqb_refl.
  - intros k Hk Hpos. unfold handleSearch. simpl. rewrite Hk. simpl.
    destruct (Z.leb_spec k 0); [lia |]. split; [done |].
    intros Hsafe. unfold numberToString. pose proof infinity_positive.
    destruct (Z.leb_spec infinity k); [lia |].
    destruct (Z.leb_spec k (- infinity)); [lia |].
    destruct (Z.ltb_spec (Z.abs k) (2 ^ 53)); [done | lia].
Qed.

Lemma handleSearch_uses_parsed_id_witness :
  (searchId (setSearchId "3.9" (ui start)) = "3.9"
   ∧ snd (handleSearch (setSearchId "3.9" (ui start))) = [lookupRequest 3])
  ∧ (searchId (setSearchId "3abc" (ui start)) = "3abc"
     ∧ snd (handleSearch (setSearchId "3abc" (ui start))) = [lookupRequest 3])
  ∧ (searchId (setSearchId "007" (ui start)) = "007"
     ∧ snd (handleSearch (setSearchId "007" (ui start))) = [lookupRequest 7])
  ∧ url (lookupRequest 7) = "https://localhost:7219/api/TreasureHunt/7".
Proof.
  split; [| split; [| split; [| reflexivity]]].
  - destruct (handleSearch_uses_parsed_id start "3.9") as [[_ Hstored] Hsent].
    split; [exact Hstored | apply (Hsent 3); [reflexivity | lia]].
  - destruct (handleSearch_uses_parsed_id start "3abc") as [[_ Hstored] Hsent].
    split; [exact Hstored | apply (Hsent 3); [reflexivity | lia]].
  - destruct (handleSearch_uses_parsed_id start "007") as [[_ Hstored] Hsent].
    split; [exact Hstored | apply (Hsent 7); [reflexivity | lia]].
Defined.

(** C10, where the claim as stated fails.  The text of 2^60 parses to the
    positive integer 2^60, and the address sent ends in other digits, those
    of the shortest decimal that is read back as the same double; the text
    of 10^21 parses to the positive integer 10^21, and the address ends in
    the exponent notation. *)
Lemma lookup_address_is_not_the_integer :
  parseInt "1152921504606846976" = Some 1152921504606846976
  ∧ 0 < 1152921504606846976
  ∧ url <$> snd (handleSearch (setSearchId "1152921504606846976" initial))
    = ["https://localhost:7219/api/TreasureHunt/1152921504606847000"]
  ∧ parseInt "1000000000000000000000" = Some 1000000000000000000000
  ∧ 0 < 1000000000000000000000
  ∧ url <$> snd (handleSearch (setSearchId "1000000000000000000000" initial))
    = ["https://localhost:7219/api/TreasureHunt/1e+21"].
Proof. repeat split; reflexivity. Qed.

(** C4. With [searchId] a positive integer, a lookup answered by a status
    outside 200..299 and the JSON body [{message: "not found"}] ends with
    [searchError = "not found"], [searchResult] still [null], and the busy
    flag cleared. *)
Theorem lookup_not_found (s : State) (k : Z) (r : Response) (b : Payload) :
  parseInt (searchId s) = Some k → 0 < k →
  ok r = false →
  body r = Some b →
  parse b = inr (JObj [("message", JStr "not found")]) →
  snd (handleSearch s) = [lookupRequest k]
  ∧ searchError (handleSearch_settled (Resolved r) (fst (handleSearch s))) = Some "not found"
  ∧ searchResult (handleSearch_settled (Resolved r) (fst (handleSearch s))) = JNull
  ∧ searching (handleSearch_settled (Resolved r) (fst (handleSearch s))) = false.
Proof.
  intros Hk Hpos Hok Hbody Hparse.
  unfold handleSearch. rewrite Hk. simpl.
  destruct (Z.leb_spec k 0); [lia |]. simpl.
  split; [done |].
  unfold handleSearch_settled, run, lookupAnswer, Response_json, tryCatch.
  simpl. unfold mbind, Task_bind. simpl.
  rewrite Hok. simpl. rewrite Hbody, Hparse. simpl. done.
Qed.

Lemma lookup_not_found_witness :
  snd (handleSearch (setSearchId "5" initial)) = [lookupRequest 5]
  ∧ searchError (handleSearch_settled (Resolved notFound404)
                   (fst (handleSearch (setSearchId "5" initial)))) = Some "not found"
  ∧ searchResult (handleSearch_settled (Resolved notFound404)
                    (fst (handleSearch (setSearchId "5" initial)))) = JNull
  ∧ searching (handleSearch_settled (Resolved notFound404)
                 (fst (handleSearch (setSearchId "5" initial)))) = false.
Proof.
  apply (lookup_not_found (setSearchId "5" initial) 5 notFound404 notFoundBody);
    [reflexivity | lia | reflexivity | reflexivity | reflexivity].
Defined.

(** ** The solve flow *)

(** C3. With N = "2", M = "2", P = "3" and the grid [["1","2"],["3","1"]],
    [handleSubmit] sends exactly one POST whose body is the JSON text of
    [{n:2,m:2,p:3,matrix:[[1,2],[3,1]]}]; when the answer is a success with
    body [{id:5,minimumFuel:12}], [result] becomes that object and the page
    shows "Calculation ID: 5" and "Minimum Fuel Required: 12". *)
Theorem solve_2x2 (s : State) (r : Response) (b : Payload) :
  n s = "2" → m s = "2" → p s = "3" →
  matrix s = [["1"; "2"]; ["3"; "1"]] →
  ok r = true → body r = Some b → parse b = inr answer5 →
  snd (handleSubmit s) = [solveRequest (stringify problem2x2)]
  ∧ stringify problem2x2 = problem2x2_text
  ∧ result (handleSubmit_settled (Resolved r) (fst (handleSubmit s))) = answer5
  ∧ resultAlert (handleSubmit_settled (Resolved r) (fst (handleSubmit s)))
    = Shown ["Calculation ID: 5"; "Minimum Fuel Required: 12"].
Proof.
  intros Hn Hm Hp Hmx Hok Hbody Hparse.
  assert (handleSubmit s
          = (setResult JNull (setError None (setLoading true
               (setValidationErrors ValidationErrors.empty s))),
             [solveRequest (stringify problem2x2)])) as ->.
  { destruct s; simpl in *; subst. by vm_compute. }
  assert (run (solveAnswer (Resolved r)) = inr answer5) as Hrun.
  { unfold run, solveAnswer, Response_json. simpl. unfold mbind, Task_bind. simpl.
    rewrite Hok. simpl. by rewrite Hbody, Hparse. }
  unfold handleSubmit_settled, resultAlert. rewrite Hrun. simpl.
  repeat split; reflexivity.
Qed.

Lemma solve_2x2_witness :
  snd (handleSubmit (setMatrix [["1"; "2"]; ["3"; "1"]] (setP "3" (setM "2" (setN "2" initial)))))
  = [solveRequest (stringify problem2x2)]
  ∧ stringify problem2x2 = problem2x2_text
  ∧ result (handleSubmit_settled (Resolved success200)
              (fst (handleSubmit (setMatrix [["1"; "2"]; ["3"; "1"]]
                                    (setP "3" (setM "2" (setN "2" initial))))))) = answer5
  ∧ resultAlert (handleSubmit_settled (Resolved success200)
                   (fst (handleSubmit (setMatrix [["1"; "2"]; ["3"; "1"]]
                                         (setP "3" (setM "2" (setN "2" initial)))))))
    = Shown ["Calculation ID: 5"; "Minimum Fuel Required: 12"].
Proof.
  apply (solve_2x2 (setMatrix [["1"; "2"]; ["3"; "1"]] (setP "3" (setM "2" (setN "2" initial))))
           success200 {| text := stringify answer5; parse := inr answer5 |});
    reflexivity.
Defined.

(** C5. A status outside 200..299 with a body that is no JSON: the lookup
    flow ends with the status line as its error, but the solve flow does not
    reach the raw text.  [response.json()] has consumed the body when the
    [catch] calls [response.text()], that call rejects, and the error shown
    is the message of that rejection. *)
Theorem solve_fallback_reads_body_twice (s : State) (r : Response) (b : Payload) (e : exn) :
  ok r = false → body r = Some b → parse b = inl e →
  error (handleSubmit_settled (Resolved r) s) = Some (alreadyRead "text")
  ∧ error (handleSubmit_settled (Resolved r) s)
    ≠ Some ("HTTP error " +:+ pretty (status r) +:+ ": " +:+ text b)
  ∧ loading (handleSubmit_settled (Resolved r) s) = false
  ∧ searchError (handleSearch_settled (Resolved r) s)
    = Some ("Error: " +:+ pretty (status r) +:+ " - " +:+ statusText r)
  ∧ searching (handleSearch_settled (Resolved r) s) = false.
Proof.
  intros Hok Hbody Hparse.
  assert (run (solveAnswer (Resolved r)) = inl (alreadyRead "text")) as Hsolve.
  { unfold run, solveAnswer, Response_json, Response_text, tryCatch.
    simpl. unfold mbind, Task_bind. simpl.
    rewrite Hok. simpl. by rewrite Hbody, Hparse. }
  assert (run (lookupAnswer (Resolved r))
          = inl ("Error: " +:+ pretty (status r) +:+ " - " +:+ statusText r)) as Hlookup.
  { unfold run, lookupAnswer, Response_json, tryCatch.
    simpl. unfold mbind, Task_bind. simpl.
    rewrite Hok. simpl. by rewrite Hbody, Hparse. }
  unfold handleSubmit_settled, handleSearch_settled. rewrite Hsolve, Hlookup.
  repeat split; try done.
Qed.

Lemma solve_fallback_reads_body_twice_witness :
  error (handleSubmit_settled (Resolved oops500) (setLoading true initial))
  = Some (alreadyRead "text")
  ∧ error (handleSubmit_settled (Resolved oops500) (setLoading true initial))
    ≠ Some "HTTP error 500: oops"
  ∧ loading (handleSubmit_settled (Resolved oops500) (setLoading true initial)) = false
  ∧ searchError (handleSearch_settled (Resolved oops500) (setLoading true initial))
    = Some "Error: 500 - Internal Server Error"
  ∧ searching (handleSearch_settled (Resolved oops500) (setLoading true initial)) = false.
Proof.
  apply (solve_fallback_reads_body_twice (setLoading true initial) oops500
           {| text := "oops"; parse := inl "Unexpected token 'o'" |} "Unexpected token 'o'");
    reflexivity.
Defined.

(** ** The grid and its resize *)

Lemma forRange_0 {A} (body : nat → A → A) (a : A) : forRange 0 body a = a.
Proof. reflexivity. Qed.

Lemma forRange_S {A} (k : nat) (body : nat → A → A) (a : A) :
  forRange (S k) body a = body k (forRange k body a).
Proof. unfold forRange. by rewrite seq_S, fold_left_app. Qed.

(** A loop keeps what every turn keeps. *)
Lemma forRange_invariant {A} (P : A → Prop) (k : nat) (body : nat → A → A) (a : A) :
  P a → (∀ i x, (i < k)%nat → P x → P (body i x)) → P (forRange k body a).
Proof.
  intros Ha Hbody. induction k as [| k IH]; [done |].
  rewrite forRange_S. apply Hbody; [lia |]. apply IH. intros i x Hi. apply Hbody. lia.
Qed.

Section AssignCell.
Variables (i j : nat) (v : string) (mx : list (list string)).

Lemma assignCell_shaped rows cols :
  shaped rows cols mx → shaped rows cols (assignCell i j v mx).
Proof.
  intros [Hlen Hrows]. split.
  - unfold assignCell. by rewrite length_alter.
  - apply Forall_alter; [done |]. intros row _ Hrow. by rewrite length_insert.
Qed.

Lemma cellAt_assignCell_same :
  is_Some (cellAt mx i j) → cellAt (assignCell i j v mx) i j = Some v.
Proof.
  unfold cellAt, assignCell. rewrite list_lookup_alter_eq.
  destruct (mx !! i) as [row |]; simpl; [| by intros [? ?]].
  intros Hj. apply list_lookup_insert_eq. by apply lookup_lt_is_Some.
Qed.

Lemma cellAt_assignCell_other a b :
  (a, b) ≠ (i, j) → cellAt (assignCell i j v mx) a b = cellAt mx a b.
Proof.
  intros Hne. unfold cellAt, assignCell.
  destruct (decide (i = a)) as [-> | Hi].
  - rewrite list_lookup_alter_eq. destruct (mx !! a) as [row |]; simpl; [| done].
    apply list_lookup_insert_ne. congruence.
  - by rewrite list_lookup_alter_ne.
Qed.
End AssignCell.

Lemma cellAt_blank rows cols a b :
  cellAt (replicate rows (replicate cols EmptyString)) a b
  = if decide (a < rows ∧ b < cols)%nat then Some EmptyString else None.
Proof.
  unfold cellAt. case_decide as H.
  - destruct H as [Ha Hb]. rewrite lookup_replicate_2 by done. simpl.
    by apply lookup_replicate_2.
  - destruct (decide (a < rows)%nat) as [Ha | Ha].
    + rewrite lookup_replicate_2 by done. simpl. apply lookup_replicate_None. lia.
    + assert (replicate rows (replicate cols EmptyString) !! a = None) as ->; [| done].
      apply lookup_replicate_None. lia.
Qed.

Lemma blank_shaped rows cols : shaped rows cols (replicate rows (replicate cols EmptyString)).
Proof.
  split; [apply length_replicate |].
  apply Forall_replicate. apply length_replicate.
Qed.

Lemma cellAt_is_Some mx a b :
  is_Some (cellAt mx a b) ↔ (a < length mx ∧ b < rowLength mx a)%nat.
Proof.
  unfold cellAt, rowLength. split.
  - intros [v Hv]. destruct (mx !! a) as [row |] eqn:Hrow; simpl in Hv; [| done].
    split; [by eapply lookup_lt_Some | by eapply lookup_lt_Some].
  - intros [Ha Hb]. destruct (mx !! a) as [row |] eqn:Hrow; simpl; [| lia].
    by apply lookup_lt_is_Some.
Qed.

Lemma cellAt_shaped rows cols mx a b :
  shaped rows cols mx → is_Some (cellAt mx a b) ↔ (a < rows ∧ b < cols)%nat.
Proof.
  intros [Hlen Hrows]. rewrite cellAt_is_Some. unfold rowLength.
  destruct (mx !! a) as [row |] eqn:Hrow.
  - rewrite (Forall_lookup_1 _ _ _ _ Hrows Hrow). subst rows. tauto.
  - apply lookup_ge_None in Hrow. lia.
Qed.

Section Copy.
Variables (rows cols : nat) (prevMatrix : list (list string)).

Lemma copyRow_shaped i bound mx :
  shaped rows cols mx → shaped rows cols (copyRow prevMatrix i bound mx).
Proof.
  intros Hmx. unfold copyRow. apply forRange_invariant; [done |].
  intros j acc _ Hacc. case_match; [by apply assignCell_shaped | done].
Qed.

Lemma cellAt_copyRow i bound mx a b :
  shaped rows cols mx → (i < rows)%nat →
  (bound ≤ cols)%nat → (bound ≤ rowLength prevMatrix i)%nat →
  cellAt (copyRow prevMatrix i bound mx) a b
  = if decide (a = i ∧ b < bound)%nat then cellAt prevMatrix i b else cellAt mx a b.
Proof.
  intros Hmx Hi. induction bound as [| k IH]; intros Hcols Hprev.
  - unfold copyRow. rewrite forRange_0. case_decide; [lia | done].
  - unfold copyRow. rewrite forRange_S. fold (copyRow prevMatrix i k mx).
    assert (is_Some (cellAt prevMatrix i k)) as [v Hv].
    { apply cellAt_is_Some. split; [| lia].
      unfold rowLength in Hprev. destruct (prevMatrix !! i) eqn:Hrow; [| lia].
      by eapply lookup_lt_Some. }
    rewrite Hv.
    destruct (decide ((a, b) = (i, k))) as [Heq | Hne].
    + injection Heq as -> ->. rewrite cellAt_assignCell_same.
      * clear IH. case_decide; [done | lia].
      * apply (cellAt_shaped rows cols); [by apply copyRow_shaped | lia].
    + rewrite cellAt_assignCell_other by done. rewrite IH by lia.
      repeat case_decide; try done; try lia.
      destruct Hne. f_equal; lia.
Qed.

Lemma copied_shaped : shaped rows cols (copied rows cols prevMatrix).
Proof.
  unfold copied. apply forRange_invariant; [apply blank_shaped |].
  intros i acc _ Hacc. by apply (copyRow_shaped i).
Qed.

Lemma cellAt_copyRows bound a b :
  (bound ≤ Nat.min rows (length prevMatrix))%nat →
  cellAt (forRange bound (fun i => copyRow prevMatrix i (Nat.min cols (rowLength prevMatrix i)))
            (replicate rows (replicate cols EmptyString))) a b
  = if decide (a < bound ∧ b < Nat.min cols (rowLength prevMatrix a))%nat
    then cellAt prevMatrix a b
    else cellAt (replicate rows (replicate cols EmptyString)) a b.
Proof.
  induction bound as [| k IH]; intros Hbound.
  - rewrite forRange_0. case_decide; [lia | done].
  - rewrite forRange_S. rewrite (cellAt_copyRow k); [| | lia | lia | lia].
    + rewrite IH by lia. clear IH.
      destruct (decide (a = k ∧ b < Nat.min cols (rowLength prevMatrix k))%nat)
        as [[-> Hb] | Hn1].
      * by rewrite decide_True by lia.
      * destruct (decide (a < k ∧ b < Nat.min cols (rowLength prevMatrix a))%nat)
          as [[Ha Hb] | Hn2].
        -- by rewrite decide_True by lia.
        -- rewrite decide_False; [done |]. intros [Ha Hb].
           destruct (decide (a = k)) as [-> | Hak]; [by apply Hn1 | apply Hn2; lia].
    + apply forRange_invariant; [apply blank_shaped |].
      intros i acc _ Hacc. by apply (copyRow_shaped i).
Qed.

(** Every cell of the new grid: the old value where the old grid has the
    cell, the empty string elsewhere. *)
Lemma cellAt_copied a b :
  cellAt (copied rows cols prevMatrix) a b
  = if decide (a < rows ∧ b < cols)%nat
    then Some (default EmptyString (cellAt prevMatrix a b))
    else None.
Proof.
  unfold copied. fold (copyRow prevMatrix).
  change (forRange ?k (fun i => forRange (Nat.min cols (rowLength prevMatrix i)) ?f) ?x)
    with (forRange k (fun i => copyRow prevMatrix i (Nat.min cols (rowLength prevMatrix i))) x).
  rewrite cellAt_copyRows by done. rewrite cellAt_blank.
  destruct (decide (a < Nat.min rows (length prevMatrix)
                    ∧ b < Nat.min cols (rowLength prevMatrix a))%nat) as [[Ha Hb] | Hout].
  - assert (is_Some (cellAt prevMatrix a b)) as [v Hv] by (apply cellAt_is_Some; lia).
    rewrite Hv. case_decide; [done | lia].
  - case_decide as Hin; [| done].
    assert (cellAt prevMatrix a b = None) as ->; [| done].
    apply eq_None_not_Some. rewrite cellAt_is_Some. lia.
Qed.
End Copy.

Lemma validDimensions_spec (s : State) :
  validDimensions s = true
  ↔ ∃ rows cols, parseInt (n s) = Some rows ∧ parseInt (m s) = Some cols ∧ 0 < rows ∧ 0 < cols.
Proof.
  unfold validDimensions, numN, numM, gt, lt, isNaN.
  destruct (parseInt (n s)) as [rows |]; simpl.
  - destruct (parseInt (m s)) as [cols |]; simpl.
    + rewrite !andb_true_iff, !Z.ltb_lt. split.
      * intros [[Hrows _] Hcols]. by exists rows, cols.
      * intros (? & ? & [= <-] & [= <-] & ? & ?). done.
    + rewrite andb_false_r. split; [done |]. by intros (? & ? & _ & ? & _).
  - split; [done |]. by intros (? & ? & ? & _).
Qed.

Lemma resized_inr (rows cols : Z) (prevMatrix : list (list string)) :
  0 < rows < 2 ^ 32 → 0 < cols < 2 ^ 32 →
  resized rows cols prevMatrix = inr (copied (Z.to_nat rows) (Z.to_nat cols) prevMatrix).
Proof.
  intros Hrows Hcols. unfold resized, newArray.
  destruct (Z.ltb_spec rows 0); [lia |]. destruct (Z.leb_spec (2 ^ 32) rows); [lia |].
  destruct (Z.ltb_spec cols 0); [lia |]. destruct (Z.leb_spec (2 ^ 32) cols); [lia |].
  simpl. destruct (Nat.eqb_spec (Z.to_nat rows) 0); [lia | done].
Qed.

Lemma resized_inl (rows cols : Z) (prevMatrix : list (list string)) :
  0 < rows → 0 < cols → 2 ^ 32 ≤ rows ∨ 2 ^ 32 ≤ cols →
  resized rows cols prevMatrix = inl invalidArrayLength.
Proof.
  intros Hrows Hcols Hlong. unfold resized, newArray.
  destruct (Z.ltb_spec rows 0); [lia |]. destruct (Z.leb_spec (2 ^ 32) rows); [done |].
  destruct (Z.ltb_spec cols 0); [lia |]. destruct (Z.leb_spec (2 ^ 32) cols); [| lia].
  simpl. destruct (Nat.eqb_spec (Z.to_nat rows) 0); [lia | done].
Qed.

(** A page is taken down exactly when its dimensions are valid and one of
    them is 2^32 or more. *)
Lemma tornDown_None (s : State) :
  tornDown s = None
  ↔ ∀ rows cols, parseInt (n s) = Some rows → parseInt (m s) = Some cols →
      0 < rows → 0 < cols → rows < 2 ^ 32 ∧ cols < 2 ^ 32.
Proof.
  unfold tornDown. destruct (validDimensions s) eqn:Hv.
  - apply validDimensions_spec in Hv as (rows & cols & Hn & Hm & Hrows & Hcols).
    unfold numN, numM. rewrite Hn, Hm. simpl.
    destruct (Z.lt_ge_cases rows (2 ^ 32)) as [Hr | Hr];
      [destruct (Z.lt_ge_cases cols (2 ^ 32)) as [Hc | Hc] |].
    + rewrite resized_inr by lia. split; [| done].
      intros _ ? ? [= <-] [= <-] _ _. done.
    + rewrite resized_inl by lia. split; [done |].
      intros H. specialize (H rows cols eq_refl eq_refl Hrows Hcols). lia.
    + rewrite resized_inl by lia. split; [done |].
      intros H. specialize (H rows cols eq_refl eq_refl Hrows Hcols). lia.
  - split; [| done]. intros _ rows cols Hn Hm Hrows Hcols.
    assert (validDimensions s = true) by (apply validDimensions_spec; eauto 10).
    congruence.
Qed.

Lemma tornDown_Some (s : State) (e : exn) : tornDown s = Some e → e = invalidArrayLength.
Proof.
  unfold tornDown, resized, newArray. intros H.
  repeat (case_match; simplify_eq); done.
Qed.

Lemma tornDown_dimensions (s s' : State) :
  n s' = n s → m s' = m s → tornDown s' = None ↔ tornDown s = None.
Proof. intros Hn Hm. rewrite !tornDown_None. by rewrite Hn, Hm. Qed.

Lemma matrix_resizeEffect_valid (s : State) :
  validDimensions s = true → tornDown s = None →
  matrix (resizeEffect s) = copied (iterations (numN s)) (iterations (numM s)) (matrix s).
Proof.
  intros Hv Halive. unfold resizeEffect. rewrite Hv.
  pose proof Hv as (rows & cols & Hn & Hm & Hrows & Hcols)%validDimensions_spec.
  destruct (proj1 (tornDown_None s) Halive rows cols) as [Hr Hc]; [done .. |].
  unfold numN, numM. rewrite Hn, Hm. simpl. rewrite resized_inr by lia.
  by case_match.
Qed.

Lemma matrix_resizeEffect_thrown (s : State) :
  tornDown s ≠ None → matrix (resizeEffect s) = matrix s.
Proof.
  unfold tornDown, resizeEffect. destruct (validDimensions s); [| done].
  destruct (resized _ _ _); [| done]. intros _. by case_match.
Qed.

Lemma matrix_resizeEffect_invalid (s : State) :
  validDimensions s = false → matrix (resizeEffect s) = [].
Proof. intros Hv. unfold resizeEffect. by rewrite Hv. Qed.

(** C2, as amended.  When N and M parse to the positive integers [rows]
    and [cols], both below 2^32, the resize effect leaves a grid of exactly
    [rows] rows of [cols] cells; a cell that the previous grid also had
    keeps the string entered there, and every other cell is the empty
    string. *)
Theorem resize_keeps_overlap (s : State) (rows cols : Z) :
  parseInt (n s) = Some rows → parseInt (m s) = Some cols →
  0 < rows < 2 ^ 32 → 0 < cols < 2 ^ 32 →
  length (matrix (resizeEffect s)) = Z.to_nat rows
  ∧ Forall (fun row => length row = Z.to_nat cols) (matrix (resizeEffect s))
  ∧ (∀ i j v, (i < Z.to_nat rows)%nat → (j < Z.to_nat cols)%nat →
       cellAt (matrix s) i j = Some v →
       cellAt (matrix (resizeEffect s)) i j = Some v)
  ∧ (∀ i j, (i < Z.to_nat rows)%nat → (j < Z.to_nat cols)%nat →
       cellAt (matrix s) i j = None →
       cellAt (matrix (resizeEffect s)) i j = Some EmptyString).
Proof.
  intros Hn Hm Hrows Hcols.
  rewrite matrix_resizeEffect_valid;
    [| apply validDimensions_spec; exists rows, cols; repeat split; [done | done | lia | lia]
     | apply tornDown_None; intros ? ? ? ? _ _; simplify_eq; lia].
  unfold numN, numM. rewrite Hn, Hm. simpl.
  destruct (copied_shaped (Z.to_nat rows) (Z.to_nat cols) (matrix s)) as [Hlen Hall].
  repeat split; [done | done | |].
  - intros i j v Hi Hj Hv. rewrite cellAt_copied, decide_True by done. by rewrite Hv.
  - intros i j Hi Hj Hv. rewrite cellAt_copied, decide_True by done. by rewrite Hv.
Qed.

Lemma resize_keeps_overlap_witness :
  length (matrix (resizeEffect (setMatrix [["1"; "2"; "3"]; ["4"]] (setM "2" (setN "3" initial))))) = 3%nat
  ∧ Forall (fun row => length row = 2%nat)
      (matrix (resizeEffect (setMatrix [["1"; "2"; "3"]; ["4"]] (setM "2" (setN "3" initial)))))
  ∧ matrix (resizeEffect (setMatrix [["1"; "2"; "3"]; ["4"]] (setM "2" (setN "3" initial))))
    = [["1"; "2"]; ["4"; ""]; [""; ""]].
Proof.
  destruct (resize_keeps_overlap
              (setMatrix [["1"; "2"; "3"]; ["4"]] (setM "2" (setN "3" initial))) 3 2)
    as (Hlen & Hall & _); [reflexivity | reflexivity | lia | lia |].
  split; [exact Hlen | split; [exact Hall | reflexivity]].
Defined.

(** C2, where the claim as stated fails.  N is 4294967296 and M is 1, two
    positive integers; [Array(numN)] throws in the updater, the page is
    taken down, and no grid of 4294967296 rows is made: the matrix is the
    one the effect found. *)
Lemma resize_throws_from_two32 :
  parseInt "4294967296" = Some 4294967296
  ∧ parseInt "1" = Some 1
  ∧ resized 4294967296 1 [] = inl "Invalid array length"
  ∧ tornDown (setM "1" (setN "4294967296" initial)) = Some "Invalid array length"
  ∧ matrix (resizeEffect (setM "1" (setN "4294967296" initial))) = []
  ∧ run_events start [ChangeM "1"; ChangeN "4294967296"] = None.
Proof. repeat split; reflexivity. Qed.

(** ** What the handlers leave alone *)

Lemma validateForm_frame (s : State) :
  sameGrid s (snd (validateForm s)) ∧ loading (snd (validateForm s)) = loading s.
Proof. unfold validateForm, sameGrid. frame. Qed.

Lemma handleSubmit_frame (s : State) : sameGrid s (fst (handleSubmit s)).
Proof.
  unfold handleSubmit. destruct (validateForm_frame s) as [Hgrid _].
  destruct (validateForm s) as [valid s1]. simpl in Hgrid. by destruct valid.
Qed.

Lemma handleSubmit_settled_frame (o : Outcome) (s : State) :
  sameGrid s (handleSubmit_settled o s) ∧ loading (handleSubmit_settled o s) = false.
Proof. unfold handleSubmit_settled, sameGrid. frame. Qed.

Lemma handleSearch_frame (s : State) :
  sameGrid s (fst (handleSearch s)) ∧ loading (fst (handleSearch s)) = loading s.
Proof. unfold handleSearch, sameGrid. frame. Qed.

Lemma handleSearch_settled_frame (o : Outcome) (s : State) :
  sameGrid s (handleSearch_settled o s) ∧ loading (handleSearch_settled o s) = loading s.
Proof. unfold handleSearch_settled, sameGrid. frame. Qed.

Lemma handleNumericInputChange_frame setter field allowZero value (s : State) :
  matrix (handleNumericInputChange setter field allowZero value s) = matrix s
  ∧ loading (handleNumericInputChange setter field allowZero value s) = loading s.
Proof. unfold handleNumericInputChange. destruct setter; frame. Qed.

Lemma handleMatrixCellChange_frame i j value (s s' : State) :
  handleMatrixCellChange i j value s = Some s' →
  n s' = n s ∧ m s' = m s ∧ loading s' = loading s
  ∧ (matrix s' = matrix s ∨ matrix s' = assignCell i j value (matrix s)).
Proof.
  unfold handleMatrixCellChange. intros H.
  repeat (case_match; simplify_eq); simpl; auto.
Qed.

(** ** The grid follows the dimensions in every reachable page *)

Lemma gridMatches_sameGrid (s s' : State) : sameGrid s s' → gridMatches s → gridMatches s'.
Proof.
  intros (Hn & Hm & Hmx). unfold gridMatches, validDimensions, numN, numM.
  by rewrite Hn, Hm, Hmx.
Qed.

Lemma gridMatches_resizeEffect (s : State) :
  tornDown s = None → gridMatches (resizeEffect s).
Proof.
  intros Halive. unfold gridMatches.
  assert (validDimensions (resizeEffect s) = validDimensions s) as ->.
  { unfold validDimensions, numN, numM. by rewrite resizeEffect_n, resizeEffect_m. }
  destruct (validDimensions s) eqn:Hv.
  - rewrite matrix_resizeEffect_valid by done.
    unfold numN, numM. rewrite resizeEffect_n, resizeEffect_m. apply copied_shaped.
  - by apply matrix_resizeEffect_invalid.
Qed.

Lemma tornDown_rendered (before after : State) :
  tornDown (rendered before after) = None ↔ tornDown after = None.
Proof. apply tornDown_dimensions; [apply rendered_n | apply rendered_m]. Qed.

(** After the render that follows a handler: either the effect ran, or the
    dimensions are those of the render before. *)
Lemma gridMatches_rendered (before after : State) :
  tornDown (rendered before after) = None →
  (n after = n before → m after = m before → gridMatches after) →
  gridMatches (rendered before after).
Proof.
  intros Halive%tornDown_rendered H. unfold rendered.
  destruct (String.eqb_spec (n before) (n after)) as [Hn | _]; simpl;
    [| by apply gridMatches_resizeEffect].
  destruct (String.eqb_spec (m before) (m after)) as [Hm | _]; simpl;
    [| by apply gridMatches_resizeEffect].
  by apply H.
Qed.

Lemma reachable_invariant_alive (P : Page → Prop) :
  P start →
  (∀ pg e pg', reachable pg → P pg → step pg e = Some pg' →
     tornDown (ui pg') = None → P pg') →
  ∀ pg, reachable pg → P pg.
Proof. intros H0 Hstep pg Hpg. induction Hpg; eauto. Qed.

Lemma reachable_invariant (P : Page → Prop) :
  P start →
  (∀ pg e pg', reachable pg → P pg → step pg e = Some pg' → P pg') →
  ∀ pg, reachable pg → P pg.
Proof. intros H0 Hstep. apply reachable_invariant_alive; eauto. Qed.


Lemma gridMatches_step (pg pg' : Page) (e : Event) :
  gridMatches (ui pg) → step pg e = Some pg' → tornDown (ui pg') = None →
  gridMatches (ui pg').
Proof.
  intros Hinv Hstep Halive. destruct e; simpl in Hstep.
  - injection Hstep as <-. simpl. apply gridMatches_rendered; [done |]. intros Hn Hm.
    eapply gridMatches_sameGrid; [| exact Hinv].
    repeat split; [done | done | apply handleNumericInputChange_frame].
  - injection Hstep as <-. simpl. apply gridMatches_rendered; [done |]. intros Hn Hm.
    eapply gridMatches_sameGrid; [| exact Hinv].
    repeat split; [done | done | apply handleNumericInputChange_frame].
  - injection Hstep as <-. simpl. apply gridMatches_rendered; [done |]. intros Hn Hm.
    eapply gridMatches_sameGrid; [| exact Hinv].
    repeat split; [done | done | apply handleNumericInputChange_frame].
  - destruct (validDimensions (ui pg)) eqn:Hv; [| done].
    destruct (handleMatrixCellChange rowIndex colIndex value (ui pg)) as [s' |] eqn:Hcell;
      [| done].
    injection Hstep as <-. simpl. apply gridMatches_rendered; [done |]. intros _ _.
    apply handleMatrixCellChange_frame in Hcell as (Hn & Hm & _ & Hmx).
    unfold gridMatches, validDimensions, numN, numM in *. rewrite Hn, Hm, Hv in *.
    destruct Hmx as [-> | ->]; [done | by apply assignCell_shaped].
  - injection Hstep as <-. simpl. apply gridMatches_rendered; [done |]. intros _ _.
    eapply gridMatches_sameGrid; [apply validateForm_frame | done].
  - destruct (solveDisabled (ui pg)); [done |].
    pose proof (handleSubmit_frame (ui pg)) as Hframe.
    destruct (handleSubmit (ui pg)) as [s' requests]. injection Hstep as <-. simpl.
    apply gridMatches_rendered; [done |]. intros _ _. by eapply gridMatches_sameGrid.
  - destruct (pendingSolves pg); [done |]. injection Hstep as <-. simpl.
    apply gridMatches_rendered; [done |]. intros _ _.
    eapply gridMatches_sameGrid; [apply handleSubmit_settled_frame | done].
  - injection Hstep as <-. simpl. apply gridMatches_rendered; [done |]. intros _ _.
    by eapply gridMatches_sameGrid; [| exact Hinv].
  - destruct (searchDisabled (ui pg)); [done |].
    pose proof (handleSearch_frame (ui pg)) as [Hframe _].
    destruct (handleSearch (ui pg)) as [s' requests]. injection Hstep as <-. simpl.
    apply gridMatches_rendered; [done |]. intros _ _. by eapply gridMatches_sameGrid.
  - destruct (pendingLookups pg); [done |]. injection Hstep as <-. simpl.
    apply gridMatches_rendered; [done |]. intros _ _.
    eapply gridMatches_sameGrid; [apply handleSearch_settled_frame | done].
Qed.

Lemma gridMatches_reachable (pg : Page) : reachable pg → gridMatches (ui pg).
Proof.
  apply (reachable_invariant_alive (fun pg => gridMatches (ui pg))); [done |].
  intros ? ? ? _. apply gridMatches_step.
Qed.

Lemma run_events_reachable (es : list Event) (pg pg' : Page) :
  reachable pg → run_events pg es = Some pg' → reachable pg'.
Proof.
  revert pg. induction es as [| e es IH]; intros pg Hpg Hrun; simpl in Hrun.
  - by injection Hrun as <-.
  - destruct (step pg e) as [pg1 |] eqn:Hstep; [| done].
    destruct (tornDown (ui pg1)) eqn:Halive; [done |].
    eapply IH; [| exact Hrun]. by eapply reachable_step.
Qed.

Lemma copied_from_empty (rows cols : nat) :
  copied rows cols [] = replicate rows (replicate cols EmptyString).
Proof. unfold copied. simpl. by rewrite Nat.min_0_r. Qed.

Lemma cells_blank_rendered (before after : State) :
  matrix after = [] →
  ∀ i j v, cellAt (matrix (rendered before after)) i j = Some v → v = EmptyString.
Proof.
  intros Hcleared i j v. unfold rendered. case_match.
  - by rewrite Hcleared.
  - destruct (validDimensions after) eqn:Hv.
    + destruct (tornDown after) eqn:Halive.
      * rewrite matrix_resizeEffect_thrown by congruence. by rewrite Hcleared.
      * rewrite matrix_resizeEffect_valid, Hcleared, cellAt_copied by done.
        case_decide; [| done]. simpl. congruence.
    + by rewrite matrix_resizeEffect_invalid.
Qed.

Lemma tornDown_invalid (s : State) : validDimensions s = false → tornDown s = None.
Proof. unfold tornDown. by intros ->. Qed.

Lemma tornDown_empty_n (s : State) : n s = EmptyString → tornDown s = None.
Proof.
  intros Hn. apply tornDown_invalid. unfold validDimensions, numN. by rewrite Hn.
Qed.

Lemma tornDown_empty_m (s : State) : m s = EmptyString → tornDown s = None.
Proof.
  intros Hm. apply tornDown_invalid. unfold validDimensions, numN, numM. rewrite Hm.
  simpl. by rewrite andb_false_r.
Qed.

Lemma gridMatches_empty_n (s : State) : n s = EmptyString → gridMatches s → matrix s = [].
Proof. unfold gridMatches, validDimensions, numN. by intros ->. Qed.

Lemma gridMatches_empty_m (s : State) : m s = EmptyString → gridMatches s → matrix s = [].
Proof.
  unfold gridMatches, validDimensions, numN, numM. intros ->. simpl.
  by rewrite andb_false_r.
Qed.

(** C9. When N or M does not parse to a positive integer the effect sets the
    grid to [[]]; what had been entered is gone, so the next effect with
    valid dimensions starts from empty cells only (or, with a dimension of
    2^32 or more, throws and leaves the grid empty), also when the user
    clears a dimension and types the old one again; and in every reachable
    page (every state in which the page takes an event) the grid is empty
    or has exactly [numN] rows of [numM] cells. *)
Theorem invalid_dimensions_clear_grid (s s' : State) (pg : Page) :
  (∀ k, parseInt (n s) = Some k → k ≤ 0) ∨ (∀ k, parseInt (m s) = Some k → k ≤ 0) →
  validDimensions s' = true →
  matrix s' = matrix (resizeEffect s) →
  reachable pg →
  matrix (resizeEffect s) = []
  ∧ (matrix (resizeEffect s')
     = replicate (iterations (numN s')) (replicate (iterations (numM s')) EmptyString)
     ∨ (tornDown s' = Some invalidArrayLength ∧ matrix (resizeEffect s') = []))
  ∧ (∀ old pg1 pg2,
       step pg (ChangeN EmptyString) = Some pg1 → step pg1 (ChangeN old) = Some pg2 →
       ∀ i j v, cellAt (matrix (ui pg2)) i j = Some v → v = EmptyString)
  ∧ (∀ old pg1 pg2,
       step pg (ChangeM EmptyString) = Some pg1 → step pg1 (ChangeM old) = Some pg2 →
       ∀ i j v, cellAt (matrix (ui pg2)) i j = Some v → v = EmptyString)
  ∧ (matrix (ui pg) = []
     ∨ ∃ rows cols,
         parseInt (n (ui pg)) = Some rows ∧ parseInt (m (ui pg)) = Some cols
         ∧ 0 < rows ∧ 0 < cols
         ∧ length (matrix (ui pg)) = Z.to_nat rows
         ∧ Forall (fun row => length row = Z.to_nat cols) (matrix (ui pg))).
Proof.
  intros Hbad Hvalid' Hmx' Hpg.
  assert (validDimensions s = false) as Hinvalid.
  { destruct (validDimensions s) eqn:Hv; [| done].
    apply validDimensions_spec in Hv as (rows & cols & Hn & Hm & ? & ?).
    destruct Hbad as [Hbad | Hbad]; [apply Hbad in Hn | apply Hbad in Hm]; lia. }
  assert (matrix (resizeEffect s) = []) as Hcleared
    by by apply matrix_resizeEffect_invalid.
  split; [done |]. split; [| split; [| split]].
  - destruct (tornDown s') as [e |] eqn:Halive'.
    + right. rewrite (tornDown_Some s' e Halive').
      split; [done |]. rewrite matrix_resizeEffect_thrown by congruence. congruence.
    + left. rewrite matrix_resizeEffect_valid by done.
      rewrite Hmx', Hcleared. apply copied_from_empty.
  - intros old pg1 pg2 Hstep1 Hstep2.
    assert (matrix (ui pg1) = []) as Hgone.
    { apply gridMatches_empty_n.
      - simpl in Hstep1. injection Hstep1 as <-. simpl. rewrite rendered_n.
        unfold handleNumericInputChange. simpl. by case_match.
      - apply gridMatches_reachable. eapply reachable_step; [done | done |].
        apply tornDown_empty_n.
        simpl in Hstep1. injection Hstep1 as <-. simpl. rewrite rendered_n.
        unfold handleNumericInputChange. simpl. by case_match. }
    simpl in Hstep2. injection Hstep2 as <-. simpl. apply cells_blank_rendered.
    by rewrite (proj1 (handleNumericInputChange_frame _ _ _ _ _)).
  - intros old pg1 pg2 Hstep1 Hstep2.
    assert (matrix (ui pg1) = []) as Hgone.
    { apply gridMatches_empty_m.
      - simpl in Hstep1. injection Hstep1 as <-. simpl. rewrite rendered_m.
        unfold handleNumericInputChange. simpl. by case_match.
      - apply gridMatches_reachable. eapply reachable_step; [done | done |].
        apply tornDown_empty_m.
        simpl in Hstep1. injection Hstep1 as <-. simpl. rewrite rendered_m.
        unfold handleNumericInputChange. simpl. by case_match. }
    simpl in Hstep2. injection Hstep2 as <-. simpl. apply cells_blank_rendered.
    by rewrite (proj1 (handleNumericInputChange_frame _ _ _ _ _)).
  - pose proof (gridMatches_reachable pg Hpg) as Hgrid. unfold gridMatches in Hgrid.
    destruct (validDimensions (ui pg)) eqn:Hv; [right | by left].
    apply validDimensions_spec in Hv as (rows & cols & Hn & Hm & ? & ?).
    unfold numN, numM in Hgrid. rewrite Hn, Hm in Hgrid. destruct Hgrid as [Hlen Hall].
    exists rows, cols. done.
Qed.

Lemma typed2x2_run : run_events start typed2x2 = Some typed2x2_page.
Proof. by vm_compute. Qed.

Lemma invalid_dimensions_clear_grid_witness :
  run_events typed2x2_page [ChangeN ""; ChangeN "2"]
  = Some (withUi (setMatrix [[""; ""]; [""; ""]] (ui typed2x2_page)) typed2x2_page)
  ∧ matrix (resizeEffect (setN "" (ui typed2x2_page))) = []
  ∧ matrix (resizeEffect (setN "2" (resizeEffect (setN "" (ui typed2x2_page)))))
    = [[""; ""]; [""; ""]]
  ∧ (matrix (ui typed2x2_page) = []
     ∨ ∃ rows cols,
         parseInt (n (ui typed2x2_page)) = Some rows
         ∧ parseInt (m (ui typed2x2_page)) = Some cols
         ∧ 0 < rows ∧ 0 < cols
         ∧ length (matrix (ui typed2x2_page)) = Z.to_nat rows
         ∧ Forall (fun row => length row = Z.to_nat cols) (matrix (ui typed2x2_page))).
Proof.
  split; [reflexivity |].
  destruct (invalid_dimensions_clear_grid
              (setN "" (ui typed2x2_page))
              (setN "2" (resizeEffect (setN "" (ui typed2x2_page))))
              typed2x2_page) as (Hcleared & Hblank & _ & _ & Hshape).
  - left. intros k Hk. vm_compute in Hk. discriminate Hk.
  - reflexivity.
  - reflexivity.
  - exact (run_events_reachable typed2x2 start typed2x2_page reachable_start typed2x2_run).
  - split; [exact Hcleared | split; [| exact Hshape]].
    destruct Hblank as [Hblank | [Hthrown _]]; [exact Hblank | discriminate Hthrown].
Defined.

(** ** One solve request at a time *)

Lemma handleSubmit_loading (s : State) :
  loading s = false →
  length (snd (handleSubmit s)) = if loading (fst (handleSubmit s)) then 1%nat else 0%nat.
Proof.
  intros Hidle. unfold handleSubmit.
  destruct (validateForm_frame s) as [_ Hloading].
  destruct (validateForm s) as [valid s1]. simpl in Hloading.
  destruct valid; simpl; [done |]. by rewrite Hloading, Hidle.
Qed.

Lemma handleSubmit_valid (s : State) :
  fst (validateForm s) = true →
  loading (fst (handleSubmit s)) = true ∧ length (snd (handleSubmit s)) = 1%nat.
Proof.
  intros Hvalid. unfold handleSubmit.
  destruct (validateForm s) as [valid s1]. simpl in Hvalid. by subst valid.
Qed.

Lemma solveInvariant_step (pg pg' : Page) (e : Event) :
  solveInvariant pg → step pg e = Some pg' → solveInvariant pg'.
Proof.
  unfold solveInvariant. intros Hinv Hstep. destruct e; simpl in Hstep.
  - injection Hstep as <-. simpl. rewrite rendered_loading.
    by rewrite (proj2 (handleNumericInputChange_frame _ _ _ _ _)).
  - injection Hstep as <-. simpl. rewrite rendered_loading.
    by rewrite (proj2 (handleNumericInputChange_frame _ _ _ _ _)).
  - injection Hstep as <-. simpl. rewrite rendered_loading.
    by rewrite (proj2 (handleNumericInputChange_frame _ _ _ _ _)).
  - destruct (validDimensions (ui pg)); [| done].
    destruct (handleMatrixCellChange rowIndex colIndex value (ui pg)) as [s' |] eqn:Hcell;
      [| done].
    injection Hstep as <-. simpl. rewrite rendered_loading.
    apply handleMatrixCellChange_frame in Hcell as (_ & _ & -> & _). done.
  - injection Hstep as <-. simpl. rewrite rendered_loading.
    by rewrite (proj2 (validateForm_frame _)).
  - unfold solveDisabled in Hstep. destruct (loading (ui pg)) eqn:Hidle; [done |].
    simpl in Hstep. destruct (isFormPotentiallyValid (ui pg)); [| done]. simpl in Hstep.
    pose proof (handleSubmit_loading (ui pg) Hidle) as Hsent.
    destruct (handleSubmit (ui pg)) as [s' requests]. simpl in Hsent.
    injection Hstep as <-. simpl. rewrite rendered_loading, Hinv. done.
  - destruct (pendingSolves pg) as [| k] eqn:Hpending; [done |].
    injection Hstep as <-. simpl. rewrite rendered_loading.
    rewrite (proj2 (handleSubmit_settled_frame _ _)).
    destruct (loading (ui pg)); lia.
  - injection Hstep as <-. simpl. by rewrite rendered_loading.
  - destruct (searchDisabled (ui pg)); [done |].
    pose proof (handleSearch_frame (ui pg)) as [_ Hloading].
    destruct (handleSearch (ui pg)) as [s' requests]. injection Hstep as <-. simpl.
    rewrite rendered_loading. simpl in Hloading. by rewrite Hloading.
  - destruct (pendingLookups pg); [done |]. injection Hstep as <-. simpl.
    rewrite rendered_loading. by rewrite (proj2 (handleSearch_settled_frame _ _)).
Qed.

Lemma solveInvariant_reachable (pg : Page) : reachable pg → solveInvariant pg.
Proof.
  apply (reachable_invariant solveInvariant); [done |].
  intros ? ? ? _. apply solveInvariant_step.
Qed.

(** C7. In every reachable page the busy flag is set exactly while one solve
    request is in flight, and there is never more than one: while the flag
    is set the Solve button is disabled and a click starts nothing; a click
    that is accepted finds no request in flight and, when validation passes,
    sets the flag and sends one request; when the request settles, whatever
    the outcome, the flag is cleared and the button is enabled again as far
    as [isFormPotentiallyValid] allows. *)
Theorem solve_is_serialized (pg : Page) :
  reachable pg →
  (pendingSolves pg ≤ 1)%nat
  ∧ (loading (ui pg) = true ↔ pendingSolves pg = 1%nat)
  ∧ (loading (ui pg) = true → solveDisabled (ui pg) = true ∧ step pg ClickSolve = None)
  ∧ (∀ pg', step pg ClickSolve = Some pg' →
       pendingSolves pg = 0%nat
       ∧ (fst (validateForm (ui pg)) = true →
            loading (ui pg') = true ∧ pendingSolves pg' = 1%nat)
       ∧ (fst (validateForm (ui pg)) = false →
            loading (ui pg') = false ∧ pendingSolves pg' = 0%nat))
  ∧ (∀ o pg', step pg (SolveSettled o) = Some pg' →
       loading (ui pg) = true
       ∧ loading (ui pg') = false
       ∧ pendingSolves pg' = 0%nat
       ∧ solveDisabled (ui pg') = negb (isFormPotentiallyValid (ui pg'))).
Proof.
  intros Hpg. pose proof (solveInvariant_reachable pg Hpg) as Hinv.
  unfold solveInvariant in Hinv.
  split; [destruct (loading (ui pg)); lia |].
  split; [destruct (loading (ui pg)); split; (done || lia) |].
  split.
  { intros Hbusy. unfold step, solveDisabled. by rewrite Hbusy. }
  split.
  - intros pg' Hstep.
    pose proof (solveInvariant_step pg pg' ClickSolve (solveInvariant_reachable pg Hpg) Hstep)
      as Hinv'.
    unfold solveInvariant in Hinv'.
    simpl in Hstep. unfold solveDisabled in Hstep.
    destruct (loading (ui pg)) eqn:Hidle; [done |]. split; [done |].
    simpl in Hstep. destruct (isFormPotentiallyValid (ui pg)); [| done]. simpl in Hstep.
    split.
    + intros Hvalid. apply handleSubmit_valid in Hvalid as [Hbusy Hone].
      destruct (handleSubmit (ui pg)) as [s' requests]. simpl in Hbusy, Hone.
      injection Hstep as <-. simpl. rewrite rendered_loading. split; [done | lia].
    + intros Hrefused. unfold handleSubmit in Hstep.
      destruct (validateForm_frame (ui pg)) as [_ Hloading].
      destruct (validateForm (ui pg)) as [valid s1]. simpl in Hrefused, Hloading.
      subst valid. simpl in Hstep. injection Hstep as <-. simpl.
      rewrite rendered_loading, Hloading, Hidle. split; [done | lia].
  - intros o pg' Hstep. simpl in Hstep.
    destruct (pendingSolves pg) as [| k] eqn:Hpending; [done |].
    injection Hstep as <-. simpl. unfold solveDisabled.
    rewrite !rendered_loading, (proj2 (handleSubmit_settled_frame _ _)).
    destruct (loading (ui pg)); [| done]. repeat split; try done. lia.
Qed.

Lemma solving2x2_run : run_events start solving2x2 = Some solving2x2_page.
Proof. by vm_compute. Qed.

Lemma solve_is_serialized_witness :
  (pendingSolves solving2x2_page ≤ 1)%nat
  ∧ (loading (ui solving2x2_page) = true ↔ pendingSolves solving2x2_page = 1%nat)
  ∧ (loading (ui solving2x2_page) = true →
       solveDisabled (ui solving2x2_page) = true ∧ step solving2x2_page ClickSolve = None)
  ∧ (∀ pg', step solving2x2_page ClickSolve = Some pg' →
       pendingSolves solving2x2_page = 0%nat
       ∧ (fst (validateForm (ui solving2x2_page)) = true →
            loading (ui pg') = true ∧ pendingSolves pg' = 1%nat)
       ∧ (fst (validateForm (ui solving2x2_page)) = false →
            loading (ui pg') = false ∧ pendingSolves pg' = 0%nat))
  ∧ (∀ o pg', step solving2x2_page (SolveSettled o) = Some pg' →
       loading (ui solving2x2_page) = true
       ∧ loading (ui pg') = false
       ∧ pendingSolves pg' = 0%nat
       ∧ solveDisabled (ui pg') = negb (isFormPotentiallyValid (ui pg'))).
Proof.
  apply (solve_is_serialized solving2x2_page).
  exact (run_events_reachable solving2x2 start solving2x2_page reachable_start solving2x2_run).
Defined.

(** ** Validation of the grid *)

Lemma forRange_id {A} (k : nat) (body : nat → A → A) (a : A) :
  (∀ i x, (i < k)%nat → body i x = x) → forRange k body a = a.
Proof.
  intros Hid. apply (forRange_invariant (fun x => x = a)); [done |].
  intros i x Hi ->. by apply Hid.
Qed.

(** A loop whose turns all do nothing but turn [k0] does what turn [k0]
    does. *)
Lemma forRange_single {A} (k k0 : nat) (body : nat → A → A) (a : A) :
  (k0 < k)%nat →
  (∀ i x, (i < k)%nat → i ≠ k0 → body i x = x) →
  forRange k body a = body k0 a.
Proof.
  induction k as [| k IH]; intros Hk0 Hid; [lia |].
  rewrite forRange_S. destruct (decide (k = k0)) as [-> | Hne].
  - f_equal. apply forRange_id. intros i x Hi. apply Hid; lia.
  - rewrite Hid by (done || lia). apply IH; [lia |]. intros i x Hi. apply Hid. lia.
Qed.

Lemma isEmpty_false_parseInt (v : string) (k : Z) : parseInt v = Some k → isEmpty v = false.
Proof. by destruct v. Qed.

Section ValidateCell.
Variables (s : State) (cap : Z).
Hypothesis Hcap : parseInt (p s) = Some cap.
Hypothesis Hpos : 0 < cap.

Lemma validateCell_good i j v k acc :
  cellAt (matrix s) i j = Some v → parseInt v = Some k → 1 ≤ k ≤ cap →
  validateCell s i j acc = acc.
Proof using Hcap Hpos.
  intros Hv Hk Hrange. unfold validateCell, numP. rewrite Hv, Hcap. simpl. rewrite Hk.
  rewrite bool_decide_eq_false_2 by (intros [= ->]; done). simpl.
  destruct (Z.ltb_spec 0 cap); [| lia]. simpl.
  destruct (Z.ltb_spec k 1); [lia |]. destruct (Z.ltb_spec cap k); [lia |]. done.
Qed.

Lemma validateCell_bad i j v :
  cellAt (matrix s) i j = Some v →
  v = EmptyString ∨ (∃ k, parseInt v = Some k ∧ (k < 1 ∨ cap < k)) →
  ∃ msg, (msg = "Required" ∨ msg = "Must be between 1 and " +:+ numberToString (Some cap))
         ∧ ∀ acc, validateCell s i j acc = (<[cellKey i j := msg]> (fst acc), false).
Proof using Hcap Hpos.
  intros Hv [-> | (k & Hk & Hout)].
  - exists "Required". split; [by left |]. intros acc.
    unfold validateCell. by rewrite Hv.
  - unfold validateCell, numP. rewrite Hv, Hcap. simpl. rewrite Hk. simpl.
    destruct (bool_decide (Some v = Some EmptyString)); simpl.
    + exists "Required". split; [by left | done].
    + exists ("Must be between 1 and " +:+ numberToString (Some cap)). split; [by right |]. intros acc.
      destruct (Z.ltb_spec 0 cap); [| lia]. simpl.
      destruct (Z.ltb_spec k 1); [done |]. destruct (Z.ltb_spec cap k); [done | lia].
Qed.
End ValidateCell.

(** The value of [validateForm] once N, M and P are positive integers. *)
Lemma validateForm_positive (s : State) (rows cols cap : Z) :
  parseInt (n s) = Some rows → parseInt (m s) = Some cols → parseInt (p s) = Some cap →
  0 < rows → 0 < cols → 0 < cap →
  validateForm s
  = match forRange (Z.to_nat rows) (fun i => forRange (Z.to_nat cols) (fun j => validateCell s i j))
            (∅, true) with
    | (_, true) => (true, setValidationErrors ValidationErrors.empty s)
    | (matrixErrors, false) =>
        (false, setValidationErrors
                  (ValidationErrors.withMatrix (Some matrixErrors) ValidationErrors.empty) s)
    end.
Proof.
  intros Hn Hm Hp Hrows Hcols Hcap. unfold validateForm, numN, numM, numP.
  rewrite (isEmpty_false_parseInt _ _ Hn), (isEmpty_false_parseInt _ _ Hm),
    (isEmpty_false_parseInt _ _ Hp), Hn, Hm, Hp. simpl.
  destruct (Z.leb_spec rows 0); [lia |]. destruct (Z.leb_spec cols 0); [lia |].
  destruct (Z.leb_spec cap 0); [lia |].
  destruct (Z.ltb_spec 0 rows); [| lia]. destruct (Z.ltb_spec 0 cols); [| lia]. simpl.
  destruct (forRange _ _ _) as [matrixErrors [|]]; done.
Qed.

(** *** The keys of the cells are distinct *)

Lemma pretty_N_char_digit (x : N) : isDigit (pretty_N_char x) = true.
Proof. unfold pretty_N_char. by repeat case_match. Qed.

Lemma pretty_N_go_digits (x : N) (acc : string) :
  allDigits acc = true → allDigits (pretty_N_go x acc) = true.
Proof.
  revert acc. induction (N.lt_wf_0 x) as [x _ IH]. intros acc Hacc.
  destruct (decide (x = 0)%N) as [-> | Hx]; [by rewrite pretty_N_go_0 |].
  rewrite pretty_N_go_step by lia. apply IH.
  - apply N.div_lt; lia.
  - simpl. by rewrite pretty_N_char_digit.
Qed.

(** The decimal text of a natural number has digits only. *)
Lemma pretty_nat_digits (x : nat) : allDigits (pretty x) = true.
Proof.
  unfold pretty, pretty_nat, pretty, pretty_N. case_decide; [done |].
  by apply pretty_N_go_digits.
Qed.

(** Two texts of digits followed by a dash and anything part at the same
    place. *)
Lemma digits_dash_inj (u u' t t' : string) :
  allDigits u = true → allDigits u' = true →
  u +:+ "-" +:+ t = u' +:+ "-" +:+ t' → u = u' ∧ t = t'.
Proof.
  revert u'. induction u as [| c u IH]; intros [| c' u'] Hu Hu' Heq; simpl in *.
  - by simplify_eq.
  - by simplify_eq.
  - by simplify_eq.
  - simplify_eq.
    apply andb_prop in Hu as [_ Hu]. apply andb_prop in Hu' as [_ Hu'].
    destruct (IH u' Hu Hu') as [-> ->]; done.
Qed.

Lemma cellKey_inj (i j i' j' : nat) : cellKey i j = cellKey i' j' → (i, j) = (i', j').
Proof.
  unfold cellKey. intros Heq.
  apply digits_dash_inj in Heq as [Hi Hj]; [| apply pretty_nat_digits ..].
  apply (inj pretty) in Hi. apply (inj pretty) in Hj. by subst.
Qed.

(** C1, as amended.  With N, M and P parsed to positive integers and every
    cell inside the N×M bounds a non-empty string that parses to an integer
    of [1, P], [validateForm] returns [true] and stores the empty error
    object; and when one cell inside the bounds is emptied, or holds a
    string whose [parseInt] value lies outside [1, P], the other cells being
    the same, [validateForm] returns [false] and the error object has the
    one key [matrix], whose only entry is that of the altered cell, with the
    message "Required" or "Must be between 1 and " followed by [String(P)].
    The value of [parseInt] is the double nearest to the integer that the
    string writes.  (A grid with a cell in each of its N rows of M cells is
    an array of arrays, so N and M are below 2^32 and the two loops end.) *)
Theorem validateForm_grid (s : State) (rows cols cap : Z) :
  parseInt (n s) = Some rows → parseInt (m s) = Some cols → parseInt (p s) = Some cap →
  0 < rows → 0 < cols → 0 < cap →
  (∀ i j, (i < Z.to_nat rows)%nat → (j < Z.to_nat cols)%nat →
     ∃ v k, cellAt (matrix s) i j = Some v ∧ v ≠ EmptyString
            ∧ parseInt v = Some k ∧ 1 ≤ k ≤ cap) →
  validateForm s = (true, setValidationErrors ValidationErrors.empty s)
  ∧ ∀ (s' : State) (i0 j0 : nat) (altered : string),
      n s' = n s → m s' = m s → p s' = p s →
      (i0 < Z.to_nat rows)%nat → (j0 < Z.to_nat cols)%nat →
      cellAt (matrix s') i0 j0 = Some altered →
      altered = EmptyString ∨ (∃ k, parseInt altered = Some k ∧ (k < 1 ∨ cap < k)) →
      (∀ i j, (i < Z.to_nat rows)%nat → (j < Z.to_nat cols)%nat → (i, j) ≠ (i0, j0) →
         cellAt (matrix s') i j = cellAt (matrix s) i j) →
      ∃ msg,
        (msg = "Required" ∨ msg = "Must be between 1 and " +:+ numberToString (Some cap))
        ∧ validateForm s'
          = (false,
             setValidationErrors
               {| ValidationErrors.n := None; ValidationErrors.m := None;
                  ValidationErrors.p := None;
                  ValidationErrors.matrix := Some {[cellKey i0 j0 := msg]} |} s')
        ∧ ({[cellKey i0 j0 := msg]} : gmap string string) !! cellKey i0 j0 = Some msg
        ∧ ∀ i j, (i, j) ≠ (i0, j0) →
            ({[cellKey i0 j0 := msg]} : gmap string string) !! cellKey i j = None.
Proof.
  intros Hn Hm Hp Hrows Hcols Hcap Hfull. split.
  - rewrite (validateForm_positive s rows cols cap) by done.
    rewrite forRange_id; [done |]. intros i acc Hi.
    apply forRange_id. intros j acc' Hj.
    destruct (Hfull i j Hi Hj) as (v & k & Hv & _ & Hk & Hrange).
    by eapply validateCell_good.
  - intros s' i0 j0 altered Hn' Hm' Hp' Hi0 Hj0 Haltered Hbad Hrest.
    rewrite <- Hn' in Hn. rewrite <- Hm' in Hm. rewrite <- Hp' in Hp.
    destruct (validateCell_bad s' cap Hp Hcap i0 j0 altered Haltered Hbad)
      as (msg & Hmsg & Hcell).
    exists msg. split; [done |]. split; [| split].
    + rewrite (validateForm_positive s' rows cols cap) by done.
      rewrite (forRange_single _ i0) by
        (try done; intros i acc Hi Hne; apply forRange_id; intros j acc' Hj;
         destruct (Hfull i j Hi Hj) as (v & k & Hv & _ & Hk & Hrange);
         rewrite <- Hrest in Hv by (done || congruence);
         by eapply validateCell_good).
      rewrite (forRange_single _ j0) by
        (try done; intros j acc' Hj Hne;
         destruct (Hfull i0 j Hi0 Hj) as (v & k & Hv & _ & Hk & Hrange);
         rewrite <- Hrest in Hv by (done || congruence);
         by eapply validateCell_good).
      by rewrite Hcell.
    + apply lookup_singleton_eq.
    + intros i j Hne. apply lookup_singleton_ne. intros Heq%cellKey_inj. congruence.
Qed.

Lemma validateForm_grid_witness :
  validateForm filled2x2 = (true, setValidationErrors ValidationErrors.empty filled2x2)
  ∧ ∀ (s' : State) (i0 j0 : nat) (altered : string),
      n s' = n filled2x2 → m s' = m filled2x2 → p s' = p filled2x2 →
      (i0 < Z.to_nat 2)%nat → (j0 < Z.to_nat 2)%nat →
      cellAt (matrix s') i0 j0 = Some altered →
      altered = EmptyString ∨ (∃ k, parseInt altered = Some k ∧ (k < 1 ∨ 3 < k)) →
      (∀ i j, (i < Z.to_nat 2)%nat → (j < Z.to_nat 2)%nat → (i, j) ≠ (i0, j0) →
         cellAt (matrix s') i j = cellAt (matrix filled2x2) i j) →
      ∃ msg,
        (msg = "Required" ∨ msg = "Must be between 1 and " +:+ numberToString (Some 3))
        ∧ validateForm s'
          = (false,
             setValidationErrors
               {| ValidationErrors.n := None; ValidationErrors.m := None;
                  ValidationErrors.p := None;
                  ValidationErrors.matrix := Some {[cellKey i0 j0 := msg]} |} s')
        ∧ ({[cellKey i0 j0 := msg]} : gmap string string) !! cellKey i0 j0 = Some msg
        ∧ ∀ i j, (i, j) ≠ (i0, j0) →
            ({[cellKey i0 j0 := msg]} : gmap string string) !! cellKey i j = None.
Proof.
  apply (validateForm_grid filled2x2 2 2 3); [reflexivity | reflexivity | reflexivity | lia | lia | lia |].
  intros i j Hi Hj.
  destruct i as [| [| i]]; [| | simpl in Hi; lia];
    (destruct j as [| [| j]]; [| | simpl in Hj; lia]).
  - exists "1", 1. repeat split; (reflexivity || discriminate || lia).
  - exists "2", 2. repeat split; (reflexivity || discriminate || lia).
  - exists "3", 3. repeat split; (reflexivity || discriminate || lia).
  - exists "1", 1. repeat split; (reflexivity || discriminate || lia).
Defined.

(** C1, where the claim as stated fails.  P is 2^53 and the one cell
    writes the integer 2^53 + 1, which is out of range; [parseInt] rounds
    it to 2^53, and [validateForm] returns [true] with no entry for the
    cell. *)
Lemma validateForm_accepts_a_cell_above_P :
  parseInt "9007199254740992" = Some 9007199254740992
  ∧ digitsPrefix None "9007199254740993" = Some 9007199254740993
  ∧ 9007199254740992 < 9007199254740993
  ∧ parseInt "9007199254740993" = Some 9007199254740992
  ∧ validateForm
      (setMatrix [["9007199254740993"]] (setP "9007199254740992" (setM "1" (setN "1" initial))))
    = (true,
       setValidationErrors ValidationErrors.empty
         (setMatrix [["9007199254740993"]]
            (setP "9007199254740992" (setM "1" (setN "1" initial))))).
Proof. repeat split; by vm_compute. Qed.

Example validateForm_emptied :
  validateForm (setMatrix [["1"; ""]; ["3"; "1"]] filled2x2)
  = (false,
     setValidationErrors
       (ValidationErrors.withMatrix (Some {["0-1" := "Required"]}) ValidationErrors.empty)
       (setMatrix [["1"; ""]; ["3"; "1"]] filled2x2)).
Proof. by vm_compute. Qed.

Example validateForm_out_of_range :
  validateForm (setMatrix [["1"; "2"]; ["4"; "1"]] filled2x2)
  = (false,
     setValidationErrors
       (ValidationErrors.withMatrix (Some {["1-0" := "Must be between 1 and 3"]})
          ValidationErrors.empty)
       (setMatrix [["1"; "2"]; ["4"; "1"]] filled2x2)).
Proof. by vm_compute. Qed.


(** * Further properties of the component *)

(** ** The validator, cell by cell *)

Lemma forRange_ind {A} (P : nat → A → Prop) (k : nat) (body : nat → A → A) (a : A) :
  P 0%nat a → (∀ i x, (i < k)%nat → P i x → P (S i) (body i x)) → P k (forRange k body a).
Proof.
  intros H0 Hstep. induction k as [| k IH]; [done |].
  rewrite forRange_S. apply Hstep; [lia |]. apply IH. intros i x Hi. apply Hstep. lia.
Qed.

Lemma parseInt_empty_cell (v : string) : v = EmptyString → parseInt v = None.
Proof. by intros ->. Qed.

Section Flagged.
Variables (s : State) (cap : Z).
Hypothesis Hcap : parseInt (p s) = Some cap.
Hypothesis Hpos : 0 < cap.

Lemma validateCell_cellMessage i j acc :
  validateCell s i j acc
  = match cellMessage s cap i j with
    | Some msg => (<[cellKey i j := msg]> (fst acc), false)
    | None => acc
    end.
Proof using Hcap Hpos.
  unfold validateCell, cellMessage, numP. rewrite Hcap.
  destruct (cellAt (matrix s) i j) as [v |]; simpl; [| done].
  destruct (decide (v = EmptyString)) as [-> | Hv]; [done |].
  rewrite bool_decide_eq_false_2 by congruence. simpl.
  destruct (parseInt v) as [k |]; simpl; [| done].
  destruct (Z.ltb_spec 0 cap); [| lia]. simpl.
  destruct (Z.ltb_spec k 1), (Z.ltb_spec cap k), (Z.leb_spec 1 k), (Z.leb_spec k cap);
    simpl; done || lia.
Qed.

Lemma flagged_start : flagged s cap (fun _ _ => False) (∅, true).
Proof. repeat split; simpl; try done; intros key msg; by rewrite lookup_empty. Qed.

Lemma flagged_equiv (visited visited' : nat → nat → Prop) acc :
  (∀ i j, visited i j ↔ visited' i j) → flagged s cap visited acc → flagged s cap visited' acc.
Proof.
  intros Heq (Hin & Hout & Hflag). repeat split.
  - intros i j msg Hv. apply Hin. by apply Heq.
  - intros key msg Hkey. destruct (Hout key msg Hkey) as (i & j & Hv & ? & ?).
    exists i, j. by rewrite <- Heq.
  - intros Hup i j Hv. apply Hflag; [done | by apply Heq].
  - intros Hall. apply Hflag. intros i j Hv. apply Hall. by apply Heq.
Qed.

(** One more cell. *)
Lemma flagged_validateCell (visited : nat → nat → Prop) i0 j0 acc :
  flagged s cap visited acc →
  flagged s cap (fun i j => visited i j ∨ (i = i0 ∧ j = j0)) (validateCell s i0 j0 acc).
Proof using Hcap Hpos.
  intros (Hin & Hout & Hflag). rewrite validateCell_cellMessage.
  destruct (cellMessage s cap i0 j0) as [msg0 |] eqn:Hmsg0; repeat split; simpl.
  - intros i j msg Hv Hmsg. destruct (decide (cellKey i0 j0 = cellKey i j)) as [Heq | Hne].
    + apply cellKey_inj in Heq as [= -> ->]. rewrite lookup_insert_eq. congruence.
    + rewrite lookup_insert_ne by done. destruct Hv as [Hv | [-> ->]]; [by apply Hin | done].
  - intros key msg. destruct (decide (cellKey i0 j0 = key)) as [<- | Hne].
    + rewrite lookup_insert_eq. intros [= <-]. exists i0, j0. auto.
    + rewrite lookup_insert_ne by done. intros Hkey.
      destruct (Hout key msg Hkey) as (i & j & Hv & ? & ?). exists i, j. auto.
  - done.
  - intros Hall. rewrite (Hall i0 j0) in Hmsg0 by auto. done.
  - intros i j msg [Hv | [-> ->]] Hmsg; [by apply Hin | congruence].
  - intros key msg Hkey. destruct (Hout key msg Hkey) as (i & j & Hv & ? & ?).
    exists i, j. auto.
  - intros Hup i j [Hv | [-> ->]]; [by apply Hflag | done].
  - intros Hall. apply Hflag. intros i j Hv. apply Hall. auto.
Qed.

Lemma flagged_loops (rows cols : nat) :
  flagged s cap (fun i j => (i < rows)%nat ∧ (j < cols)%nat)
    (forRange rows (fun i => forRange cols (fun j => validateCell s i j)) (∅, true)).
Proof using Hcap Hpos.
  apply (forRange_ind (fun a acc => flagged s cap (fun i j => (i < a)%nat ∧ (j < cols)%nat) acc)).
  - eapply flagged_equiv; [| apply flagged_start]. intros i j. simpl. lia.
  - intros a acc Ha Hacc.
    apply (flagged_equiv (fun i j => ((i < a)%nat ∧ (j < cols)%nat) ∨ (i = a ∧ (j < cols)%nat)));
      [intros i j; lia |].
    apply (forRange_ind (fun b acc' =>
             flagged s cap (fun i j => ((i < a)%nat ∧ (j < cols)%nat) ∨ (i = a ∧ (j < b)%nat)) acc')).
    + eapply flagged_equiv; [| exact Hacc]. intros i j. simpl. lia.
    + intros b acc' Hb Hacc'.
      eapply flagged_equiv; [| apply flagged_validateCell, Hacc'].
      intros i j. simpl. lia.
Qed.
End Flagged.

(** X1. With N, M and P parsed to positive numbers, N and M at most 2^53
    (where the two loops of the code still end), the error object of
    [validateForm] has an entry for a cell inside the bounds exactly when
    the cell is missing, empty or not a number ("Required") or parses to a
    number outside [1, P] (the range message, which ends in [String(P)]);
    it has no entry under any other key; and [validateForm] returns [true]
    exactly when no cell inside the bounds has an entry.  The numbers are
    those [parseInt] gives: a cell is compared after it is rounded to a
    double. *)
Theorem validateForm_flags_exactly_the_bad_cells (s : State) (rows cols cap : Z) :
  parseInt (n s) = Some rows → parseInt (m s) = Some cols → parseInt (p s) = Some cap →
  0 < rows ≤ 2 ^ 53 → 0 < cols ≤ 2 ^ 53 → 0 < cap →
  ∃ (matrixErrors : gmap string string) (isValid : bool),
    validateForm s
    = (isValid,
       setValidationErrors
         (if isValid then ValidationErrors.empty
          else ValidationErrors.withMatrix (Some matrixErrors) ValidationErrors.empty) s)
    ∧ (∀ i j, (i < Z.to_nat rows)%nat → (j < Z.to_nat cols)%nat →
         matrixErrors !! cellKey i j
         = match cellAt (matrix s) i j ≫= parseInt with
           | None => Some "Required"
           | Some k =>
               if (1 <=? k) && (k <=? cap) then None
               else Some ("Must be between 1 and " +:+ numberToString (Some cap))
           end)
    ∧ (∀ key, is_Some (matrixErrors !! key) →
         ∃ i j, (i < Z.to_nat rows)%nat ∧ (j < Z.to_nat cols)%nat ∧ key = cellKey i j)
    ∧ (isValid = true ↔
       ∀ i j, (i < Z.to_nat rows)%nat → (j < Z.to_nat cols)%nat →
         ∃ v k, cellAt (matrix s) i j = Some v ∧ parseInt v = Some k ∧ 1 ≤ k ≤ cap).
Proof.
  intros Hn Hm Hp [Hrows _] [Hcols _] Hcap.
  rewrite (validateForm_positive s rows cols cap) by done.
  pose proof (flagged_loops s cap Hp Hcap (Z.to_nat rows) (Z.to_nat cols)) as Hloops.
  destruct (forRange _ _ _) as [matrixErrors isValid].
  destruct Hloops as (Hin & Hout & Hflag). simpl in Hin, Hout, Hflag.
  exists matrixErrors, isValid. split; [by destruct isValid |]. split; [| split].
  - intros i j Hi Hj. fold (cellMessage s cap i j).
    destruct (cellMessage s cap i j) as [msg |] eqn:Hmsg; [by apply Hin |].
    destruct (matrixErrors !! cellKey i j) as [msg |] eqn:Hkey; [| done].
    destruct (Hout _ _ Hkey) as (i' & j' & _ & [= -> ->]%cellKey_inj & Hmsg'). congruence.
  - intros key [msg Hkey]. destruct (Hout _ _ Hkey) as (i & j & [? ?] & ? & _). eauto.
  - rewrite Hflag. split.
    + intros Hall i j Hi Hj. specialize (Hall i j (conj Hi Hj)). unfold cellMessage in Hall.
      destruct (cellAt (matrix s) i j) as [v |]; simpl in Hall; [| done].
      destruct (parseInt v) as [k |] eqn:Hk; [| done].
      exists v, k. repeat split; try done;
        destruct (Z.leb_spec 1 k), (Z.leb_spec k cap); simpl in Hall; done || lia.
    + intros Hall i j [Hi Hj]. destruct (Hall i j Hi Hj) as (v & k & Hv & Hk & ? & ?).
      unfold cellMessage. rewrite Hv. simpl. rewrite Hk.
      destruct (Z.leb_spec 1 k), (Z.leb_spec k cap); simpl; done || lia.
Qed.

Lemma validateForm_flags_exactly_the_bad_cells_witness :
  ∃ (matrixErrors : gmap string string) (isValid : bool),
    validateForm oneBadCell
    = (isValid,
       setValidationErrors
         (if isValid then ValidationErrors.empty
          else ValidationErrors.withMatrix (Some matrixErrors) ValidationErrors.empty)
         oneBadCell)
    ∧ (∀ i j, (i < Z.to_nat 2)%nat → (j < Z.to_nat 2)%nat →
         matrixErrors !! cellKey i j
         = match cellAt (matrix oneBadCell) i j ≫= parseInt with
           | None => Some "Required"
           | Some k =>
               if (1 <=? k) && (k <=? 3) then None
               else Some ("Must be between 1 and " +:+ numberToString (Some 3))
           end)
    ∧ (∀ key, is_Some (matrixErrors !! key) →
         ∃ i j, (i < Z.to_nat 2)%nat ∧ (j < Z.to_nat 2)%nat ∧ key = cellKey i j)
    ∧ (isValid = true ↔
       ∀ i j, (i < Z.to_nat 2)%nat → (j < Z.to_nat 2)%nat →
         ∃ v k, cellAt (matrix oneBadCell) i j = Some v ∧ parseInt v = Some k ∧ 1 ≤ k ≤ 3).
Proof.
  apply (validateForm_flags_exactly_the_bad_cells oneBadCell 2 2 3);
    [reflexivity | reflexivity | reflexivity | lia | lia | lia].
Defined.

Example validateForm_two_bad_cells :
  validateForm oneBadCell
  = (false,
     setValidationErrors
       (ValidationErrors.withMatrix
          (Some {["0-1" := "Required"; "1-0" := "Must be between 1 and 3"]})
          ValidationErrors.empty)
       oneBadCell).
Proof. by vm_compute. Qed.


(** ** What the text fields can hold *)

Lemma digitValue_range (c : ascii) : isDigit c = true → 0 ≤ digitValue c ≤ 9.
Proof.
  unfold isDigit, digitValue. intros [Hlo Hhi]%andb_prop.
  apply Nat.leb_le in Hlo, Hhi. lia.
Qed.

Lemma digitsPrefix_allDigits (r : string) (a : Z) :
  allDigits r = true → 0 ≤ a → ∃ k, digitsPrefix (Some a) r = Some k ∧ a ≤ k.
Proof.
  revert a. induction r as [| c r IH]; intros a Hr Ha; simpl in *.
  - exists a. split; [done | lia].
  - apply andb_prop in Hr as [Hc Hr]. rewrite Hc.
    pose proof (digitValue_range c Hc) as Hd.
    destruct (IH (10 * a + digitValue c) Hr) as (k & Hk & Hle); [lia |].
    exists k. split; [done | lia].
Qed.

Lemma parseInt_digit_first (c : ascii) (r : string) :
  isDigit c = true →
  parseInt (String c r) = toDouble <$> digitsPrefix (Some (digitValue c)) r.
Proof.
  destruct c as [[] [] [] [] [] [] [] []]; intros Hc; try done.
Qed.

Lemma parseInt_allDigits (v : string) :
  allDigits v = true → v ≠ EmptyString → ∃ k, parseInt v = Some k ∧ 0 ≤ k.
Proof.
  destruct v as [| c r]; [done |]. simpl. intros [Hc Hr]%andb_prop _.
  rewrite parseInt_digit_first by done.
  pose proof (digitValue_range c Hc) as Hd.
  destruct (digitsPrefix_allDigits r (digitValue c) Hr) as (k & Hk & Hle); [lia |].
  exists (toDouble k). rewrite Hk. split; [done |]. apply toDouble_nonnegative. lia.
Qed.

Lemma digitValue_positive (c : ascii) :
  isDigit c = true → Ascii.eqb c "0" = false → 1 ≤ digitValue c.
Proof. destruct c as [[] [] [] [] [] [] [] []]; intros Hc Hz; try done. Qed.

Lemma parseInt_positiveDigits (v : string) :
  positiveDigits v = true → ∃ k, parseInt v = Some k ∧ 0 < k.
Proof.
  destruct v as [| c r]; [done |]. simpl.
  intros [[Hc Hz%negb_true_iff]%andb_prop Hr]%andb_prop.
  rewrite parseInt_digit_first by done.
  pose proof (digitValue_positive c Hc Hz) as Hd.
  destruct (digitsPrefix_allDigits r (digitValue c) Hr) as (k & Hk & Hle); [lia |].
  exists (toDouble k). rewrite Hk. split; [done |]. apply toDouble_positive. lia.
Qed.

Lemma positiveDigits_no_zero (v : string) : positiveDigits v = true → startsWithZero v = false.
Proof.
  destruct v as [| c r]; [done |]. simpl.
  by intros [[_ Hz%negb_true_iff]%andb_prop _]%andb_prop.
Qed.

Lemma stripLeadingZeros_no_zero (v : string) : startsWithZero (stripLeadingZeros v) = false.
Proof.
  induction v as [| c r IH]; [done |]. simpl.
  destruct (Ascii.eqb c "0") eqn:Hc; [done |]. simpl. done.
Qed.

(** X7. A value that the test [/^[1-9]\d*$/] lets into a text field
    parses to a positive number (the integer it writes rounded to a double,
    [infinity] when that is beyond the doubles), and the change handler
    stores it as it is, removes the error shown for that field and leaves
    the errors of the other fields and of the grid as they are.  For P that
    is the page after the event, as no effect follows; after a change of N
    or M the effect on [n, m] runs next and replaces the errors of the
    grid. *)
Theorem accepted_value_is_a_positive_number (setter : Setter) (v : string) (s : State) :
  positiveDigits v = true →
  isNaN (parseInt v) = false ∧ gt (parseInt v) (Some 0) = true
    ∧ (∀ pg, step pg (ChangeP v)
             = Some (withUi (handleNumericInputChange SetP "p" false v (ui pg)) pg))
    ∧ match setter with
      | SetN =>
          n (handleNumericInputChange SetN "n" false v s) = v
          ∧ ValidationErrors.has (validationErrors (handleNumericInputChange SetN "n" false v s)) "n"
            = false
          ∧ ValidationErrors.m (validationErrors (handleNumericInputChange SetN "n" false v s))
            = ValidationErrors.m (validationErrors s)
          ∧ ValidationErrors.p (validationErrors (handleNumericInputChange SetN "n" false v s))
            = ValidationErrors.p (validationErrors s)
          ∧ ValidationErrors.matrix (validationErrors (handleNumericInputChange SetN "n" false v s))
            = ValidationErrors.matrix (validationErrors s)
      | SetM =>
          m (handleNumericInputChange SetM "m" false v s) = v
          ∧ ValidationErrors.has (validationErrors (handleNumericInputChange SetM "m" false v s)) "m"
            = false
          ∧ ValidationErrors.n (validationErrors (handleNumericInputChange SetM "m" false v s))
            = ValidationErrors.n (validationErrors s)
          ∧ ValidationErrors.p (validationErrors (handleNumericInputChange SetM "m" false v s))
            = ValidationErrors.p (validationErrors s)
          ∧ ValidationErrors.matrix (validationErrors (handleNumericInputChange SetM "m" false v s))
            = ValidationErrors.matrix (validationErrors s)
      | SetP =>
          p (handleNumericInputChange SetP "p" false v s) = v
          ∧ ValidationErrors.has (validationErrors (handleNumericInputChange SetP "p" false v s)) "p"
            = false
          ∧ ValidationErrors.n (validationErrors (handleNumericInputChange SetP "p" false v s))
            = ValidationErrors.n (validationErrors s)
          ∧ ValidationErrors.m (validationErrors (handleNumericInputChange SetP "p" false v s))
            = ValidationErrors.m (validationErrors s)
          ∧ ValidationErrors.matrix (validationErrors (handleNumericInputChange SetP "p" false v s))
            = ValidationErrors.matrix (validationErrors s)
      end.
Proof.
  intros Hv. destruct (parseInt_positiveDigits v Hv) as (k & Hk & Hpos).
  rewrite Hk. split; [done |].
  split; [simpl; destruct (Z.ltb_spec 0 k); [done | lia] |]. split.
  - intros pg. simpl. unfold rendered, handleNumericInputChange. rewrite Hv, orb_true_r.
    simpl. destruct (ValidationErrors.has (validationErrors (ui pg)) _); simpl;
      by rewrite !String.eqb_refl.
  - unfold handleNumericInputChange. rewrite Hv, orb_true_r.
    destruct setter; simpl;
      destruct (ValidationErrors.has (validationErrors s) _) eqn:Hshown; simpl; done.
Qed.

Lemma accepted_value_is_a_positive_number_witness :
  isNaN (parseInt "120") = false ∧ gt (parseInt "120") (Some 0) = true
    ∧ (∀ pg, step pg (ChangeP "120")
             = Some (withUi (handleNumericInputChange SetP "p" false "120" (ui pg)) pg))
    ∧ n (handleNumericInputChange SetN "n" false "120" (snd (validateForm initial))) = "120"
    ∧ ValidationErrors.has
        (validationErrors (handleNumericInputChange SetN "n" false "120" (snd (validateForm initial))))
        "n" = false
    ∧ ValidationErrors.m
        (validationErrors (handleNumericInputChange SetN "n" false "120" (snd (validateForm initial))))
      = ValidationErrors.m (validationErrors (snd (validateForm initial)))
    ∧ ValidationErrors.p
        (validationErrors (handleNumericInputChange SetN "n" false "120" (snd (validateForm initial))))
      = ValidationErrors.p (validationErrors (snd (validateForm initial)))
    ∧ ValidationErrors.matrix
        (validationErrors (handleNumericInputChange SetN "n" false "120" (snd (validateForm initial))))
      = ValidationErrors.matrix (validationErrors (snd (validateForm initial))).
Proof.
  apply (accepted_value_is_a_positive_number SetN "120" (snd (validateForm initial))).
  reflexivity.
Defined.

(** X2. [validateForm] has no complaint about an N that is text but no
    number: the test [numN <= 0] is false for [NaN].  No cell is checked
    either, so with M and P positive integers the validation passes; only
    the Solve button, through [isFormPotentiallyValid], stays disabled. *)
Theorem validateForm_passes_a_dimension_that_is_no_number (s : State) (cols cap : Z) :
  isEmpty (n s) = false → parseInt (n s) = None →
  parseInt (m s) = Some cols → 0 < cols →
  parseInt (p s) = Some cap → 0 < cap →
  validateForm s = (true, setValidationErrors ValidationErrors.empty s)
  ∧ isFormPotentiallyValid s = false
  ∧ solveDisabled s = true.
Proof.
  intros Hfilled Hn Hm Hcols Hp Hcap.
  unfold validateForm, isFormPotentiallyValid, solveDisabled, isFormPotentiallyValid,
    numN, numM, numP.
  rewrite Hfilled, Hn, Hm, Hp, (isEmpty_false_parseInt _ _ Hm), (isEmpty_false_parseInt _ _ Hp).
  simpl. destruct (Z.leb_spec cols 0); [lia |]. destruct (Z.leb_spec cap 0); [lia |].
  simpl. by rewrite orb_true_r.
Qed.

Lemma typedFraction_run : run_events start typedFraction = Some typedFraction_page.
Proof. by vm_compute. Qed.

Lemma validateForm_passes_a_dimension_that_is_no_number_witness :
  run_events start typedFraction = Some typedFraction_page
  ∧ validateForm (ui typedFraction_page)
    = (true, setValidationErrors ValidationErrors.empty (ui typedFraction_page))
  ∧ isFormPotentiallyValid (ui typedFraction_page) = false
  ∧ solveDisabled (ui typedFraction_page) = true.
Proof.
  split; [exact typedFraction_run |].
  apply (validateForm_passes_a_dimension_that_is_no_number (ui typedFraction_page) 2 3);
    [reflexivity | reflexivity | reflexivity | lia | reflexivity | lia].
Defined.

(** *** What each handler does to N, M and P *)

Lemma validateForm_dimensions (s : State) :
  n (snd (validateForm s)) = n s ∧ m (snd (validateForm s)) = m s
  ∧ p (snd (validateForm s)) = p s.
Proof. unfold validateForm. frame. Qed.

Lemma handleSubmit_dimensions (s : State) :
  n (fst (handleSubmit s)) = n s ∧ m (fst (handleSubmit s)) = m s
  ∧ p (fst (handleSubmit s)) = p s.
Proof.
  unfold handleSubmit. pose proof (validateForm_dimensions s) as Hdims.
  destruct (validateForm s) as [valid s1]. simpl in Hdims. by destruct valid.
Qed.

Lemma handleSubmit_settled_dimensions (o : Outcome) (s : State) :
  n (handleSubmit_settled o s) = n s ∧ m (handleSubmit_settled o s) = m s
  ∧ p (handleSubmit_settled o s) = p s.
Proof. unfold handleSubmit_settled. frame. Qed.

Lemma handleSearch_dimensions (s : State) :
  n (fst (handleSearch s)) = n s ∧ m (fst (handleSearch s)) = m s
  ∧ p (fst (handleSearch s)) = p s.
Proof. unfold handleSearch. frame. Qed.

Lemma handleSearch_settled_dimensions (o : Outcome) (s : State) :
  n (handleSearch_settled o s) = n s ∧ m (handleSearch_settled o s) = m s
  ∧ p (handleSearch_settled o s) = p s.
Proof. unfold handleSearch_settled. frame. Qed.

Lemma handleMatrixCellChange_dimensions i j value (s s' : State) :
  handleMatrixCellChange i j value s = Some s' → n s' = n s ∧ m s' = m s ∧ p s' = p s.
Proof.
  unfold handleMatrixCellChange. intros H.
  repeat (case_match; simplify_eq); simpl; auto.
Qed.

Lemma handleNumericInputChange_noLeadingZero setter field value (s : State) :
  noLeadingZero s → noLeadingZero (handleNumericInputChange setter field false value s).
Proof.
  intros (Hn & Hm & Hp). unfold handleNumericInputChange. simpl.
  destruct (isEmpty value) eqn:Hempty; simpl.
  - destruct value; [| done]. destruct setter; repeat case_match; by repeat split.
  - destruct (positiveDigits value) eqn:Hdigits.
    + apply positiveDigits_no_zero in Hdigits.
      destruct setter; repeat case_match; by repeat split.
    + repeat case_match; try by repeat split.
      all: pose proof (stripLeadingZeros_no_zero value); destruct setter; by repeat split.
Qed.

Lemma noLeadingZero_same (s s' : State) :
  n s' = n s ∧ m s' = m s ∧ p s' = p s → noLeadingZero s → noLeadingZero s'.
Proof. unfold noLeadingZero. by intros (-> & -> & ->). Qed.

Lemma noLeadingZero_rendered (before after : State) :
  noLeadingZero after → noLeadingZero (rendered before after).
Proof. apply noLeadingZero_same. by rewrite rendered_n, rendered_m, rendered_p. Qed.

Lemma noLeadingZero_step (pg pg' : Page) (e : Event) :
  noLeadingZero (ui pg) → step pg e = Some pg' → noLeadingZero (ui pg').
Proof.
  intros Hinv Hstep. destruct e; simpl in Hstep.
  - injection Hstep as <-. by apply noLeadingZero_rendered, handleNumericInputChange_noLeadingZero.
  - injection Hstep as <-. by apply noLeadingZero_rendered, handleNumericInputChange_noLeadingZero.
  - injection Hstep as <-. by apply noLeadingZero_rendered, handleNumericInputChange_noLeadingZero.
  - destruct (validDimensions (ui pg)); [| done].
    destruct (handleMatrixCellChange rowIndex colIndex value (ui pg)) as [s' |] eqn:Hcell;
      [| done].
    injection Hstep as <-. apply noLeadingZero_rendered.
    eapply noLeadingZero_same; [| exact Hinv]. by eapply handleMatrixCellChange_dimensions.
  - injection Hstep as <-. apply noLeadingZero_rendered.
    eapply noLeadingZero_same; [apply validateForm_dimensions | done].
  - destruct (solveDisabled (ui pg)); [done |].
    pose proof (handleSubmit_dimensions (ui pg)) as Hdims.
    destruct (handleSubmit (ui pg)) as [s' requests]. injection Hstep as <-.
    apply noLeadingZero_rendered. by eapply noLeadingZero_same.
  - destruct (pendingSolves pg); [done |]. injection Hstep as <-.
    apply noLeadingZero_rendered.
    eapply noLeadingZero_same; [apply handleSubmit_settled_dimensions | done].
  - injection Hstep as <-. by apply noLeadingZero_rendered.
  - destruct (searchDisabled (ui pg)); [done |].
    pose proof (handleSearch_dimensions (ui pg)) as Hdims.
    destruct (handleSearch (ui pg)) as [s' requests]. injection Hstep as <-.
    apply noLeadingZero_rendered. by eapply noLeadingZero_same.
  - destruct (pendingLookups pg); [done |]. injection Hstep as <-.
    apply noLeadingZero_rendered.
    eapply noLeadingZero_same; [apply handleSearch_settled_dimensions | done].
Qed.

(** X6. In every reachable page none of the fields N, M and P holds a text
    that starts with a zero: such a value is either refused (a lone zero) or
    stored without its leading zeros. *)
Theorem dimensions_never_start_with_zero (pg : Page) :
  reachable pg →
  startsWithZero (n (ui pg)) = false
  ∧ startsWithZero (m (ui pg)) = false
  ∧ startsWithZero (p (ui pg)) = false.
Proof.
  apply (reachable_invariant (fun pg => noLeadingZero (ui pg))); [done |].
  intros ? ? ? _. apply noLeadingZero_step.
Qed.

Lemma dimensions_never_start_with_zero_witness :
  startsWithZero (n (ui typedFraction_page)) = false
  ∧ startsWithZero (m (ui typedFraction_page)) = false
  ∧ startsWithZero (p (ui typedFraction_page)) = false.
Proof.
  apply (dimensions_never_start_with_zero typedFraction_page).
  exact (run_events_reachable typedFraction start typedFraction_page reachable_start
           typedFraction_run).
Defined.

(** ** The cells of the grid *)

Lemma handleMatrixCellChange_matrix i j value (s s' : State) :
  handleMatrixCellChange i j value s = Some s' →
  (allDigits value = false ∧ s' = s)
  ∨ (allDigits value = true ∧ is_Some (cellAt (matrix s) i j)
     ∧ matrix s' = assignCell i j value (matrix s)).
Proof.
  unfold handleMatrixCellChange. intros H.
  destruct (allDigits value) eqn:Hdigits.
  - right. rewrite orb_true_r in H.
    destruct (cellAt (matrix s) i j) as [old |] eqn:Hcell; [| done].
    split; [done |]. split; [by eexists |].
    repeat (case_match; simplify_eq); done.
  - left. destruct value as [| c r]; [done |]. simpl in H. by injection H as <-.
Qed.

Lemma cellsAreDigits_assignCell i j value mx :
  allDigits value = true → is_Some (cellAt mx i j) →
  cellsAreDigits mx → cellsAreDigits (assignCell i j value mx).
Proof.
  intros Hvalue Hcell Hmx a b v.
  destruct (decide ((a, b) = (i, j))) as [[= -> ->] | Hne].
  - rewrite cellAt_assignCell_same by done. by intros [= <-].
  - rewrite cellAt_assignCell_other by done. apply Hmx.
Qed.

Lemma cellsAreDigits_resizeEffect (s : State) :
  cellsAreDigits (matrix s) → cellsAreDigits (matrix (resizeEffect s)).
Proof.
  intros Hmx i j v. destruct (validDimensions s) eqn:Hv.
  - destruct (tornDown s) eqn:Halive.
    { rewrite matrix_resizeEffect_thrown by congruence. apply Hmx. }
    rewrite matrix_resizeEffect_valid, cellAt_copied by done.
    case_decide; [| done]. intros [= <-].
    destruct (cellAt (matrix s) i j) as [old |] eqn:Hold; simpl; [by eapply Hmx | done].
  - by rewrite matrix_resizeEffect_invalid.
Qed.

Lemma cellsAreDigits_rendered (before after : State) :
  cellsAreDigits (matrix after) → cellsAreDigits (matrix (rendered before after)).
Proof. unfold rendered. case_match; [done | apply cellsAreDigits_resizeEffect]. Qed.

Lemma cellsAreDigits_step (pg pg' : Page) (e : Event) :
  cellsAreDigits (matrix (ui pg)) → step pg e = Some pg' → cellsAreDigits (matrix (ui pg')).
Proof.
  intros Hinv Hstep. destruct e; simpl in Hstep.
  - injection Hstep as <-. apply cellsAreDigits_rendered.
    by rewrite (proj1 (handleNumericInputChange_frame _ _ _ _ _)).
  - injection Hstep as <-. apply cellsAreDigits_rendered.
    by rewrite (proj1 (handleNumericInputChange_frame _ _ _ _ _)).
  - injection Hstep as <-. apply cellsAreDigits_rendered.
    by rewrite (proj1 (handleNumericInputChange_frame _ _ _ _ _)).
  - destruct (validDimensions (ui pg)); [| done].
    destruct (handleMatrixCellChange rowIndex colIndex value (ui pg)) as [s' |] eqn:Hcell;
      [| done].
    injection Hstep as <-. apply cellsAreDigits_rendered.
    apply handleMatrixCellChange_matrix in Hcell as [[_ ->] | (Hvalue & Hold & ->)];
      [done | by apply cellsAreDigits_assignCell].
  - injection Hstep as <-. apply cellsAreDigits_rendered.
    destruct (validateForm_frame (ui pg)) as [(_ & _ & ->) _]. done.
  - destruct (solveDisabled (ui pg)); [done |].
    pose proof (handleSubmit_frame (ui pg)) as (_ & _ & Hmx).
    destruct (handleSubmit (ui pg)) as [s' requests]. injection Hstep as <-.
    apply cellsAreDigits_rendered. simpl in Hmx. by rewrite Hmx.
  - destruct (pendingSolves pg); [done |]. injection Hstep as <-.
    apply cellsAreDigits_rendered.
    destruct (handleSubmit_settled_frame o (ui pg)) as [(_ & _ & ->) _]. done.
  - injection Hstep as <-. by apply cellsAreDigits_rendered.
  - destruct (searchDisabled (ui pg)); [done |].
    pose proof (handleSearch_frame (ui pg)) as [(_ & _ & Hmx) _].
    destruct (handleSearch (ui pg)) as [s' requests]. injection Hstep as <-.
    apply cellsAreDigits_rendered. simpl in Hmx. by rewrite Hmx.
  - destruct (pendingLookups pg); [done |]. injection Hstep as <-.
    apply cellsAreDigits_rendered.
    destruct (handleSearch_settled_frame o (ui pg)) as [(_ & _ & ->) _]. done.
Qed.

Lemma cellsAreDigits_reachable (pg : Page) : reachable pg → cellsAreDigits (matrix (ui pg)).
Proof.
  apply (reachable_invariant (fun pg => cellsAreDigits (matrix (ui pg)))).
  - intros i j v. done.
  - intros ? ? ? _. apply cellsAreDigits_step.
Qed.

(** X5. In every reachable page each cell of the grid is empty or a text of
    decimal digits only, so it is empty or parses to a number that is
    neither [NaN] nor negative (the number is [infinity] when the digits
    are more than a double can hold): the cell handler stores nothing
    else, and a resize copies cells or makes empty ones. *)
Theorem cells_hold_digits_only (pg : Page) (i j : nat) (v : string) :
  reachable pg → cellAt (matrix (ui pg)) i j = Some v →
  allDigits v = true
  ∧ (v = EmptyString ∨ (isNaN (parseInt v) = false ∧ lt (parseInt v) (Some 0) = false)).
Proof.
  intros Hpg Hv. pose proof (cellsAreDigits_reachable pg Hpg i j v Hv) as Hdigits.
  split; [done |]. destruct (decide (v = EmptyString)) as [-> | Hfilled]; [by left | right].
  destruct (parseInt_allDigits v Hdigits Hfilled) as (k & -> & Hk). simpl.
  split; [done |]. destruct (Z.ltb_spec k 0); [lia | done].
Qed.

Lemma cells_hold_digits_only_witness :
  allDigits "9" = true
  ∧ ("9" = EmptyString ∨ (isNaN (parseInt "9") = false ∧ lt (parseInt "9") (Some 0) = false)).
Proof.
  apply (cells_hold_digits_only typed2x2_page 1 1 "9").
  - exact (run_events_reachable typed2x2 start typed2x2_page reachable_start typed2x2_run).
  - reflexivity.
Defined.

(** ** What is sent to the solve service *)


Section ParsedRow.
Variable cap : Z.



End ParsedRow.




Lemma lookup_remaining_errors (key0 key : string) (shown : gmap string string) :
  match (if bool_decide (base.delete key0 shown = ∅) then None
         else Some (base.delete key0 shown)) with
  | Some remaining => remaining !! key
  | None => None
  end = base.delete key0 shown !! key.
Proof. case_bool_decide as Hempty; [by rewrite Hempty, lookup_empty | done]. Qed.

Lemma handleMatrixCellChange_errors i j value (s s' : State) :
  handleMatrixCellChange i j value s = Some s' → allDigits value = true →
  ValidationErrors.n (validationErrors s') = ValidationErrors.n (validationErrors s)
  ∧ ValidationErrors.m (validationErrors s') = ValidationErrors.m (validationErrors s)
  ∧ ValidationErrors.p (validationErrors s') = ValidationErrors.p (validationErrors s)
  ∧ (ValidationErrors.truthyText (cellError s (cellKey i j)) = true →
       cellError s' (cellKey i j) = None)
  ∧ (∀ key, key ≠ cellKey i j → cellError s' key = cellError s key).
Proof.
  unfold handleMatrixCellChange, cellError. intros H Hvalue. rewrite Hvalue, orb_true_r in H.
  destruct (cellAt (matrix s) i j) as [old |]; [| done].
  destruct (ValidationErrors.matrix (validationErrors s)) as [shown |] eqn:Hshown; simpl in H.
  - destruct (ValidationErrors.truthyText (shown !! cellKey i j)) eqn:Htruthy;
      injection H as <-; simpl; rewrite ?Hshown; simpl.
    + repeat split; try done.
      * intros _. by rewrite lookup_remaining_errors, lookup_delete_eq.
      * intros key Hkey. by rewrite lookup_remaining_errors, lookup_delete_ne.
    + repeat split; try done.
  - injection H as <-. simpl. rewrite Hshown. repeat split; done.
Qed.

(** X4. A change event of a drawn cell with a text of digits (the empty
    text included) puts that text in the cell and leaves every other cell as
    it was; the error shown for that cell is cleared, the errors of the
    other cells and of N, M and P stay.  A text with anything but digits
    changes nothing. *)
Theorem cell_edit_touches_one_cell (i j : nat) (value : string) (s s' : State) :
  handleMatrixCellChange i j value s = Some s' →
  (allDigits value = false → s' = s)
  ∧ (allDigits value = true →
       cellAt (matrix s') i j = Some value
       ∧ (∀ a b, (a, b) ≠ (i, j) → cellAt (matrix s') a b = cellAt (matrix s) a b)
       ∧ (ValidationErrors.truthyText (cellError s (cellKey i j)) = true →
            cellError s' (cellKey i j) = None)
       ∧ (∀ a b, (a, b) ≠ (i, j) → cellError s' (cellKey a b) = cellError s (cellKey a b))
       ∧ ValidationErrors.n (validationErrors s') = ValidationErrors.n (validationErrors s)
       ∧ ValidationErrors.m (validationErrors s') = ValidationErrors.m (validationErrors s)
       ∧ ValidationErrors.p (validationErrors s') = ValidationErrors.p (validationErrors s)
       ∧ n s' = n s ∧ m s' = m s ∧ p s' = p s).
Proof.
  intros Hstep. split.
  - intros Hvalue. apply handleMatrixCellChange_matrix in Hstep as [[_ ->] | (Hdigits & _)];
      [done | congruence].
  - intros Hvalue.
    destruct (handleMatrixCellChange_errors i j value s s' Hstep Hvalue)
      as (Hn & Hm & Hp & Hcleared & Hkept).
    destruct (handleMatrixCellChange_dimensions i j value s s' Hstep) as (? & ? & ?).
    apply handleMatrixCellChange_matrix in Hstep as [[Hdigits _] | (_ & Hcell & Hmx)];
      [congruence |].
    rewrite Hmx. repeat split; try done.
    + by apply cellAt_assignCell_same.
    + intros a b Hne. by apply cellAt_assignCell_other.
    + intros a b Hne. apply Hkept. intros Heq%cellKey_inj. congruence.
Qed.

Lemma cell_edit_touches_one_cell_witness :
  handleMatrixCellChange 0 1 "2" (snd (validateForm oneBadCell)) = Some editedCell
  ∧ cellAt (matrix editedCell) 0 1 = Some "2"
  ∧ cellError editedCell (cellKey 0 1) = None
  ∧ cellError editedCell (cellKey 1 0) = cellError (snd (validateForm oneBadCell)) (cellKey 1 0)
  ∧ cellError editedCell (cellKey 1 0) = Some "Must be between 1 and 3".
Proof.
  assert (handleMatrixCellChange 0 1 "2" (snd (validateForm oneBadCell)) = Some editedCell)
    as Hedit by by vm_compute.
  destruct (cell_edit_touches_one_cell 0 1 "2" (snd (validateForm oneBadCell)) editedCell Hedit)
    as [_ Hstored].
  destruct (Hstored eq_refl) as (Hcell & _ & Hcleared & Hkept & _).
  split; [exact Hedit |]. split; [exact Hcell |].
  split; [apply Hcleared; reflexivity |].
  split; [apply Hkept; discriminate | reflexivity].
Defined.

(** ** The grid of inputs *)

Section FlatMap.
Context {B : Type}.

Lemma elem_of_fields (f : nat → nat → string → B) (mx : list (list string)) (x : B) :
  x ∈ mjoin (imap (fun i row => imap (fun j cell => f i j cell) row) mx)
  ↔ ∃ i j cell, cellAt mx i j = Some cell ∧ x = f i j cell.
Proof.
  rewrite list_elem_of_join. split.
  - intros (l & Hx & Hl). apply elem_of_lookup_imap in Hl as (i & row & -> & Hrow).
    apply elem_of_lookup_imap in Hx as (j & cell & -> & Hcell).
    exists i, j, cell. unfold cellAt. by rewrite Hrow.
  - intros (i & j & cell & Hcell & ->). unfold cellAt in Hcell.
    destruct (mx !! i) as [row |] eqn:Hrow; simpl in Hcell; [| done].
    exists (imap (fun j cell => f i j cell) row). split.
    + by apply (elem_of_lookup_imap_2 (fun j cell => f i j cell)).
    + by apply (elem_of_lookup_imap_2 (fun i row => imap (fun j cell => f i j cell) row)).
Qed.

Lemma NoDup_fields (f : nat → nat → string → B) (mx : list (list string)) :
  (∀ i j c i' j' c', f i j c = f i' j' c' → (i, j) = (i', j')) →
  NoDup (mjoin (imap (fun i row => imap (fun j cell => f i j cell) row) mx)).
Proof.
  revert f. induction mx as [| row mx IH]; intros f Hinj; [constructor |].
  rewrite imap_cons. simpl. apply NoDup_app. split; [| split].
  - apply NoDup_alt. intros a b x Ha Hb. rewrite list_lookup_imap in Ha, Hb.
    apply fmap_Some in Ha as (c & _ & ->). apply fmap_Some in Hb as (c' & _ & Heq).
    apply Hinj in Heq. congruence.
  - intros x Hx Hrest. apply elem_of_lookup_imap in Hx as (j & c & -> & _).
    change (imap ((fun i row0 => imap (fun j0 cell => f i j0 cell) row0) ∘ S) mx)
      with (imap (fun i row0 => imap (fun j0 cell => f (S i) j0 cell) row0) mx) in Hrest.
    apply (elem_of_fields (fun i => f (S i))) in Hrest as (i' & j' & c' & _ & Heq).
    apply Hinj in Heq. congruence.
  - apply (IH (fun i => f (S i))). intros i j c i' j' c' Heq. apply Hinj in Heq. congruence.
Qed.
End FlatMap.

Lemma renderMatrixInputs_condition (s : State) :
  isNaN (numN s) || le (numN s) (Some 0) || isNaN (numM s) || le (numM s) (Some 0)
  = negb (validDimensions s).
Proof.
  unfold validDimensions, gt, lt, le, isNaN.
  destruct (numN s) as [rows |], (numM s) as [cols |]; simpl; try done.
  - destruct (Z.leb_spec rows 0), (Z.ltb_spec 0 rows), (Z.leb_spec cols 0), (Z.ltb_spec 0 cols);
      simpl; done || lia.
  - destruct (Z.leb_spec rows 0), (Z.ltb_spec 0 rows); simpl; done || lia.
Qed.

Lemma handleMatrixCellChange_offered i j value (s : State) :
  is_Some (cellAt (matrix s) i j) → is_Some (handleMatrixCellChange i j value s).
Proof.
  intros [old Hold]. unfold handleMatrixCellChange. rewrite Hold.
  repeat case_match; by eexists.
Qed.

(** X14. While N or M is no positive integer the page draws no cell and
    offers no cell event.  Otherwise, in a reachable page, the grid has one
    field for each cell of the [numN] by [numM] grid and no other: the keys
    of the fields are pairwise distinct, each field shows the text of its
    cell and the error stored under its key, and its change handler finds
    the cell. *)
Theorem grid_has_one_field_per_cell (pg : Page) :
  reachable pg →
  match renderMatrixInputs (ui pg) with
  | EnterDimensions =>
      validDimensions (ui pg) = false
      ∧ ∀ i j value, step pg (ChangeCell i j value) = None
  | Grid columns fields =>
      columns = numM (ui pg)
      ∧ NoDup (TextField.key <$> fields)
      ∧ (∀ field, field ∈ fields →
           ∃ i j, TextField.onChange field = (i, j)
             ∧ TextField.key field = cellKey i j
             ∧ (i < iterations (numN (ui pg)))%nat ∧ (j < iterations (numM (ui pg)))%nat
             ∧ cellAt (matrix (ui pg)) i j = Some (TextField.value field)
             ∧ TextField.helperText field = cellError (ui pg) (cellKey i j)
             ∧ ∀ value, is_Some (step pg (ChangeCell i j value)))
      ∧ (∀ i j, (i < iterations (numN (ui pg)))%nat → (j < iterations (numM (ui pg)))%nat →
           ∃ field, field ∈ fields ∧ TextField.onChange field = (i, j))
  end.
Proof.
  intros Hpg. pose proof (gridMatches_reachable pg Hpg) as Hgrid.
  unfold renderMatrixInputs, gridMatches in *. rewrite renderMatrixInputs_condition.
  destruct (validDimensions (ui pg)) eqn:Hvalid; simpl.
  - split; [done |]. split; [| split].
    + apply NoDup_fmap_2_strong.
      * intros x y Hx Hy Hkey.
        apply elem_of_fields in Hx as (i & j & c & Hc & ->).
        apply elem_of_fields in Hy as (i' & j' & c' & Hc' & ->). simpl in Hkey.
        apply cellKey_inj in Hkey as [= <- <-]. congruence.
      * apply NoDup_fields. intros i j c i' j' c' Heq.
        by injection Heq as Hkey%cellKey_inj _.
    + intros field Hfield. apply elem_of_fields in Hfield as (i & j & c & Hc & ->).
      exists i, j. simpl.
      assert (is_Some (cellAt (matrix (ui pg)) i j)) as Hcell by by eexists.
      pose proof (proj1 (cellAt_shaped _ _ _ i j Hgrid) Hcell) as [Hi Hj].
      repeat split; try done. intros value. rewrite Hvalid.
      destruct (handleMatrixCellChange_offered i j value (ui pg) Hcell) as [s' ->].
      by eexists.
    + intros i j Hi Hj.
      destruct (proj2 (cellAt_shaped _ _ _ i j Hgrid) (conj Hi Hj)) as [c Hc].
      eexists. split; [apply elem_of_fields; by exists i, j, c | done].
  - split; [done |]. intros i j value. by rewrite Hvalid.
Qed.

Lemma grid_has_one_field_per_cell_witness :
  match renderMatrixInputs (ui typed2x2_page) with
  | EnterDimensions =>
      validDimensions (ui typed2x2_page) = false
      ∧ ∀ i j value, step typed2x2_page (ChangeCell i j value) = None
  | Grid columns fields =>
      columns = numM (ui typed2x2_page)
      ∧ NoDup (TextField.key <$> fields)
      ∧ (∀ field, field ∈ fields →
           ∃ i j, TextField.onChange field = (i, j)
             ∧ TextField.key field = cellKey i j
             ∧ (i < iterations (numN (ui typed2x2_page)))%nat
             ∧ (j < iterations (numM (ui typed2x2_page)))%nat
             ∧ cellAt (matrix (ui typed2x2_page)) i j = Some (TextField.value field)
             ∧ TextField.helperText field = cellError (ui typed2x2_page) (cellKey i j)
             ∧ ∀ value, is_Some (step typed2x2_page (ChangeCell i j value)))
      ∧ (∀ i j, (i < iterations (numN (ui typed2x2_page)))%nat →
                (j < iterations (numM (ui typed2x2_page)))%nat →
           ∃ field, field ∈ fields ∧ TextField.onChange field = (i, j))
  end.
Proof.
  apply (grid_has_one_field_per_cell typed2x2_page).
  exact (run_events_reachable typed2x2 start typed2x2_page reachable_start typed2x2_run).
Defined.

Example renderMatrixInputs_keys :
  match renderMatrixInputs (ui typed2x2_page) with
  | Grid columns fields =>
      columns = Some 2
      ∧ TextField.key <$> fields = ["0-0"; "0-1"; "1-0"; "1-1"]
      ∧ TextField.value <$> fields = ["7"; ""; ""; "9"]
  | EnterDimensions => False
  end.
Proof. by vm_compute. Qed.

(** ** How an answer ends *)

Ltac run_answer :=
  unfold run, solveAnswer, lookupAnswer, awaitFetch, tryCatch, Response_json, Response_text,
    liftE, throw; simpl;
  unfold mbind, Task_bind, mret, Task_ret; simpl.

Lemma truthy_text (msg : string) : msg ≠ EmptyString → truthy (JStr msg) = true.
Proof. by destruct msg. Qed.

Lemma messageOr_filled (msg fallback : string) : msg ≠ EmptyString → messageOr msg fallback = msg.
Proof. by destruct msg. Qed.

Lemma messageOr_nonempty (msg fallback : string) :
  fallback ≠ EmptyString → messageOr msg fallback ≠ EmptyString.
Proof. by destruct msg. Qed.

(** X8. For an answer outside 200..299 whose body is a JSON object, both
    flows take the error from [message] when that value is truthy, else
    from [title] when that one is truthy, and else fall back: the solve flow
    to the JSON text of the whole body, the lookup flow to the status.  The
    value taken is turned into text as [String] does (a string as it is, the
    number 5 as "5"); the solve flow puts "HTTP error <status>: " in front,
    the lookup flow shows the text alone, or "Failed to fetch result" when
    the text is empty. *)
Theorem error_text_is_message_then_title (s : State) (r : Response) (b : Payload)
    (props : list (string * json)) :
  ok r = false → body r = Some b → parse b = inr (JObj props) →
  (∀ message shown, lookupProp "message" props = Some message → truthy message = true →
     toString message = inr shown →
     error (handleSubmit_settled (Resolved r) s)
     = Some ("HTTP error " +:+ pretty (status r) +:+ ": " +:+ shown)
     ∧ searchError (handleSearch_settled (Resolved r) s)
       = Some (messageOr shown "Failed to fetch result"))
  ∧ (∀ title shown, truthy_opt (lookupProp "message" props) = false →
       lookupProp "title" props = Some title → truthy title = true →
       toString title = inr shown →
       error (handleSubmit_settled (Resolved r) s)
       = Some ("HTTP error " +:+ pretty (status r) +:+ ": " +:+ shown)
       ∧ searchError (handleSearch_settled (Resolved r) s)
         = Some (messageOr shown "Failed to fetch result"))
  ∧ (truthy_opt (lookupProp "message" props) = false →
     truthy_opt (lookupProp "title" props) = false →
       error (handleSubmit_settled (Resolved r) s)
       = Some ("HTTP error " +:+ pretty (status r) +:+ ": " +:+ stringify (JObj props))
       ∧ searchError (handleSearch_settled (Resolved r) s)
         = Some ("Error: " +:+ pretty (status r))).
Proof.
  intros Hok Hbody Hparse. unfold handleSubmit_settled, handleSearch_settled.
  split; [| split].
  - intros message shown Hmsg Htruthy Hshown. run_answer. rewrite Hok. simpl.
    rewrite Hbody, Hparse. simpl. rewrite Hmsg. simpl. rewrite Htruthy, Hshown. done.
  - intros title shown Hmsg Htitle Htruthy Hshown. run_answer. rewrite Hok. simpl.
    rewrite Hbody, Hparse. simpl. unfold orElse. rewrite Htitle, Htruthy.
    destruct (lookupProp "message" props) as [v |]; simpl in Hmsg |- *;
      rewrite ?Hmsg, Hshown; simpl; done.
  - intros Hmsg Htitle. run_answer. rewrite Hok. simpl. rewrite Hbody, Hparse. simpl.
    unfold orElse.
    destruct (lookupProp "message" props) as [v |], (lookupProp "title" props) as [w |];
      simpl in Hmsg, Htitle |- *; rewrite ?Hmsg, ?Htitle; simpl; done.
Qed.

Lemma error_text_is_message_then_title_witness :
  error (handleSubmit_settled (Resolved badRequest400) initial)
  = Some "HTTP error 400: Bad Request"
  ∧ searchError (handleSearch_settled (Resolved badRequest400) initial) = Some "Bad Request".
Proof.
  destruct (error_text_is_message_then_title initial badRequest400
              {| text := stringify (JObj badRequestProps); parse := inr (JObj badRequestProps) |}
              badRequestProps) as (_ & Htitle & _); [reflexivity | reflexivity | reflexivity |].
  apply (Htitle (JStr "Bad Request") "Bad Request");
    [reflexivity | reflexivity | reflexivity | reflexivity].
Defined.

(** A [message] that is a number is shown through [String]. *)
Example error_text_of_a_number :
  error (handleSubmit_settled
           (Resolved {| status := 400; statusText := "Bad Request";
                        body := Some {| text := stringify (JObj [("message", JNum 5); ("title", JStr "Bad Request")]);
                                        parse := inr (JObj [("message", JNum 5); ("title", JStr "Bad Request")]) |} |})
           initial)
  = Some "HTTP error 400: 5"
  ∧ searchError (handleSearch_settled
                   (Resolved {| status := 400; statusText := "Bad Request";
                                body := Some {| text := stringify (JObj [("message", JNum 5); ("title", JStr "Bad Request")]);
                                                parse := inr (JObj [("message", JNum 5); ("title", JStr "Bad Request")]) |} |})
                   initial)
    = Some "5".
Proof. split; reflexivity. Qed.

Lemma solveAnswer_inr (o : Outcome) (data : json) :
  run (solveAnswer o) = inr data
  ↔ ∃ r b, o = Resolved r ∧ ok r = true ∧ body r = Some b ∧ parse b = inr data.
Proof.
  split.
  - destruct o as [e | r]; [done |]. run_answer.
    destruct (ok r) eqn:Hok; simpl.
    + destruct (body r) as [b |] eqn:Hbody; [| done]. simpl. intros Hparse. by exists r, b.
    + repeat (case_match; simpl in *; simplify_eq); done.
  - intros (r & b & -> & Hok & Hbody & Hparse). run_answer. rewrite Hok. simpl.
    by rewrite Hbody.
Qed.

Lemma lookupAnswer_inr (o : Outcome) (data : json) :
  run (lookupAnswer o) = inr data
  ↔ ∃ r b, o = Resolved r ∧ ok r = true ∧ body r = Some b ∧ parse b = inr data.
Proof.
  split.
  - destruct o as [e | r]; [done |]. run_answer.
    destruct (ok r) eqn:Hok; simpl.
    + destruct (body r) as [b |] eqn:Hbody; [| done]. simpl. intros Hparse. by exists r, b.
    + repeat (case_match; simpl in *; simplify_eq); done.
  - intros (r & b & -> & Hok & Hbody & Hparse). run_answer. rewrite Hok. simpl.
    by rewrite Hbody.
Qed.

(** X10. When a request settles, the busy flag of its flow is cleared and
    exactly one of two things has happened.  The answer had a status of
    200..299 and a body that is JSON: the value is stored as the result and
    the error is left as it was.  Or anything else (no answer, another
    status, no body, a body that is no JSON): the result is left as it was
    and the error is a text that is not empty. *)
Theorem settled_request_gives_result_or_error (o : Outcome) (s : State) :
  loading (handleSubmit_settled o s) = false
  ∧ searching (handleSearch_settled o s) = false
  ∧ (∀ r b data, o = Resolved r → ok r = true → body r = Some b → parse b = inr data →
       result (handleSubmit_settled o s) = data
       ∧ error (handleSubmit_settled o s) = error s
       ∧ searchResult (handleSearch_settled o s) = data
       ∧ searchError (handleSearch_settled o s) = searchError s)
  ∧ ((∀ r b data, o = Resolved r → ok r = true → body r = Some b → parse b ≠ inr data) →
       result (handleSubmit_settled o s) = result s
       ∧ (∃ msg, error (handleSubmit_settled o s) = Some msg ∧ msg ≠ EmptyString)
       ∧ searchResult (handleSearch_settled o s) = searchResult s
       ∧ (∃ msg, searchError (handleSearch_settled o s) = Some msg ∧ msg ≠ EmptyString)).
Proof.
  unfold handleSubmit_settled, handleSearch_settled.
  split; [by destruct (run (solveAnswer o)) |].
  split; [by destruct (run (lookupAnswer o)) |]. split.
  - intros r b data Ho Hok Hbody Hparse.
    rewrite (proj2 (solveAnswer_inr o data)), (proj2 (lookupAnswer_inr o data)) by eauto 10.
    done.
  - intros Hfailed.
    destruct (run (solveAnswer o)) as [e | data] eqn:Hsolve.
    2: { apply solveAnswer_inr in Hsolve as (r & b & Ho & Hok & Hbody & Hparse).
         by destruct (Hfailed r b data). }
    destruct (run (lookupAnswer o)) as [e' | data] eqn:Hlookup.
    2: { apply lookupAnswer_inr in Hlookup as (r & b & Ho & Hok & Hbody & Hparse).
         by destruct (Hfailed r b data). }
    simpl. repeat split; try done; eexists; (split; [done |]); by apply messageOr_nonempty.
Qed.

Lemma settled_request_gives_result_or_error_witness :
  (result (handleSubmit_settled (Resolved success200) initial) = answer5
   ∧ error (handleSubmit_settled (Resolved success200) initial) = None)
  ∧ (result (handleSubmit_settled (Resolved noContent204) initial) = JNull
     ∧ ∃ msg, error (handleSubmit_settled (Resolved noContent204) initial) = Some msg
              ∧ msg ≠ EmptyString).
Proof.
  split.
  - destruct (settled_request_gives_result_or_error (Resolved success200) initial)
      as (_ & _ & Hstored & _).
    destruct (Hstored success200 {| text := stringify answer5; parse := inr answer5 |} answer5)
      as (Hresult & Herror & _); [reflexivity | reflexivity | reflexivity | reflexivity |].
    split; [exact Hresult | exact Herror].
  - destruct (settled_request_gives_result_or_error (Resolved noContent204) initial)
      as (_ & _ & _ & Hfailed).
    destruct Hfailed as (Hresult & Herror & _).
    + intros r b data [= <-] _ Hbody. discriminate Hbody.
    + split; [exact Hresult | exact Herror].
Defined.

(** ** The two flows side by side *)

Lemma resizeEffect_lookupPanel (s : State) : lookupPanel (resizeEffect s) = lookupPanel s.
Proof. unfold resizeEffect, lookupPanel. frame. Qed.

Lemma rendered_lookupPanel (before after : State) :
  lookupPanel (rendered before after) = lookupPanel after.
Proof. unfold rendered. case_match; [done | apply resizeEffect_lookupPanel]. Qed.

Lemma resizeEffect_solveOutcome (s : State) : solveOutcome (resizeEffect s) = solveOutcome s.
Proof. unfold resizeEffect, solveOutcome. frame. Qed.

Lemma rendered_solveOutcome (before after : State) :
  solveOutcome (rendered before after) = solveOutcome after.
Proof. unfold rendered. case_match; [done | apply resizeEffect_solveOutcome]. Qed.

Lemma rendered_unchanged (before after : State) :
  n after = n before → m after = m before → rendered before after = after.
Proof. intros Hn Hm. unfold rendered. by rewrite Hn, Hm, !String.eqb_refl. Qed.

Lemma handleNumericInputChange_others setter field allowZero value (s : State) :
  lookupPanel (handleNumericInputChange setter field allowZero value s) = lookupPanel s
  ∧ solveOutcome (handleNumericInputChange setter field allowZero value s) = solveOutcome s.
Proof. unfold handleNumericInputChange, lookupPanel, solveOutcome. destruct setter; frame. Qed.

Lemma handleMatrixCellChange_others i j value (s s' : State) :
  handleMatrixCellChange i j value s = Some s' →
  lookupPanel s' = lookupPanel s ∧ solveOutcome s' = solveOutcome s.
Proof.
  unfold handleMatrixCellChange. intros H.
  repeat (case_match; simplify_eq); simpl; auto.
Qed.

Lemma validateForm_others (s : State) :
  lookupPanel (snd (validateForm s)) = lookupPanel s
  ∧ solveOutcome (snd (validateForm s)) = solveOutcome s.
Proof. unfold validateForm, lookupPanel, solveOutcome. frame. Qed.

Lemma handleSubmit_lookupPanel (s : State) : lookupPanel (fst (handleSubmit s)) = lookupPanel s.
Proof.
  unfold handleSubmit. pose proof (validateForm_others s) as [Hpanel _].
  destruct (validateForm s) as [valid s1]. simpl in Hpanel. by destruct valid.
Qed.

Lemma handleSubmit_settled_lookupPanel (o : Outcome) (s : State) :
  lookupPanel (handleSubmit_settled o s) = lookupPanel s.
Proof. unfold handleSubmit_settled, lookupPanel. frame. Qed.

Lemma handleSearch_solvePanel (s : State) : solvePanel (fst (handleSearch s)) = solvePanel s.
Proof. unfold handleSearch, solvePanel. frame. Qed.

Lemma handleSearch_settled_solvePanel (o : Outcome) (s : State) :
  solvePanel (handleSearch_settled o s) = solvePanel s.
Proof. unfold handleSearch_settled, solvePanel. frame. Qed.

Lemma solvePanel_rendered (before after : State) :
  solvePanel after = solvePanel before → solvePanel (rendered before after) = solvePanel before.
Proof.
  intros Hpanel. rewrite rendered_unchanged; [done | |]; unfold solvePanel in Hpanel; congruence.
Qed.

(** X11. No event of the lookup panel (typing an id, a click on SEARCH, a
    lookup that settles) changes a cell of the solve panel or the number of
    solve requests in flight, and no other event changes a cell of the
    lookup panel or the number of lookups in flight. *)
Theorem flows_leave_each_other_alone (pg pg' : Page) (e : Event) :
  step pg e = Some pg' →
  match e with
  | ChangeSearchId _ | ClickSearch | LookupSettled _ =>
      solvePanel (ui pg') = solvePanel (ui pg) ∧ pendingSolves pg' = pendingSolves pg
  | _ =>
      lookupPanel (ui pg') = lookupPanel (ui pg) ∧ pendingLookups pg' = pendingLookups pg
  end.
Proof.
  intros Hstep. destruct e; simpl in Hstep.
  - injection Hstep as <-. simpl. rewrite rendered_lookupPanel.
    split; [apply handleNumericInputChange_others | done].
  - injection Hstep as <-. simpl. rewrite rendered_lookupPanel.
    split; [apply handleNumericInputChange_others | done].
  - injection Hstep as <-. simpl. rewrite rendered_lookupPanel.
    split; [apply handleNumericInputChange_others | done].
  - destruct (validDimensions (ui pg)); [| done].
    destruct (handleMatrixCellChange rowIndex colIndex value (ui pg)) as [s' |] eqn:Hcell;
      [| done].
    injection Hstep as <-. simpl. rewrite rendered_lookupPanel.
    split; [by eapply handleMatrixCellChange_others | done].
  - injection Hstep as <-. simpl. rewrite rendered_lookupPanel.
    split; [apply validateForm_others | done].
  - destruct (solveDisabled (ui pg)); [done |].
    pose proof (handleSubmit_lookupPanel (ui pg)) as Hpanel.
    destruct (handleSubmit (ui pg)) as [s' requests]. injection Hstep as <-. simpl.
    by rewrite rendered_lookupPanel.
  - destruct (pendingSolves pg); [done |]. injection Hstep as <-. simpl.
    rewrite rendered_lookupPanel. split; [apply handleSubmit_settled_lookupPanel | done].
  - injection Hstep as <-. simpl. split; [| done]. by apply solvePanel_rendered.
  - destruct (searchDisabled (ui pg)); [done |].
    pose proof (handleSearch_solvePanel (ui pg)) as Hpanel.
    destruct (handleSearch (ui pg)) as [s' requests]. injection Hstep as <-. simpl.
    split; [| done]. by apply solvePanel_rendered.
  - destruct (pendingLookups pg); [done |]. injection Hstep as <-. simpl.
    split; [| done]. apply solvePanel_rendered, handleSearch_settled_solvePanel.
Qed.

Lemma flows_leave_each_other_alone_witness :
  solvePanel (ui looking5_page) = solvePanel (setSearchId "5" initial)
  ∧ pendingSolves looking5_page = 0%nat.
Proof.
  apply (flows_leave_each_other_alone (withUi (setSearchId "5" initial) start) looking5_page
           ClickSearch).
  reflexivity.
Defined.

Lemma lookupPanel_searching (s s' : State) :
  lookupPanel s' = lookupPanel s → searching s' = searching s.
Proof. unfold lookupPanel. congruence. Qed.

Lemma handleSearch_cases (s : State) :
  (∃ k, parseInt (searchId s) = Some k ∧ 0 < k
        ∧ handleSearch s
          = (setSearchResult JNull (setSearchError None (setSearching true s)),
             [lookupRequest k]))
  ∨ ((¬ ∃ k, parseInt (searchId s) = Some k ∧ 0 < k)
     ∧ handleSearch s = (setSearchError (Some invalidIdMessage) s, [])).
Proof.
  unfold handleSearch. destruct (parseInt (searchId s)) as [k |] eqn:Hk; simpl.
  - destruct (Z.leb_spec k 0).
    + right. split; [| done]. intros (k' & [= <-] & ?). lia.
    + left. exists k. done.
  - right. split; [| done]. by intros (k' & ? & _).
Qed.

Lemma lookupInvariant_step (pg pg' : Page) (e : Event) :
  lookupInvariant pg → step pg e = Some pg' → lookupInvariant pg'.
Proof.
  unfold lookupInvariant. intros Hinv Hstep. destruct e; simpl in Hstep.
  - injection Hstep as <-. simpl.
    by rewrite (lookupPanel_searching _ _ (rendered_lookupPanel _ _)),
      (lookupPanel_searching _ _ (proj1 (handleNumericInputChange_others _ _ _ _ _))).
  - injection Hstep as <-. simpl.
    by rewrite (lookupPanel_searching _ _ (rendered_lookupPanel _ _)),
      (lookupPanel_searching _ _ (proj1 (handleNumericInputChange_others _ _ _ _ _))).
  - injection Hstep as <-. simpl.
    by rewrite (lookupPanel_searching _ _ (rendered_lookupPanel _ _)),
      (lookupPanel_searching _ _ (proj1 (handleNumericInputChange_others _ _ _ _ _))).
  - destruct (validDimensions (ui pg)); [| done].
    destruct (handleMatrixCellChange rowIndex colIndex value (ui pg)) as [s' |] eqn:Hcell;
      [| done].
    injection Hstep as <-. simpl.
    apply handleMatrixCellChange_others in Hcell as [Hpanel _].
    by rewrite (lookupPanel_searching _ _ (rendered_lookupPanel _ _)),
      (lookupPanel_searching _ _ Hpanel).
  - injection Hstep as <-. simpl.
    by rewrite (lookupPanel_searching _ _ (rendered_lookupPanel _ _)),
      (lookupPanel_searching _ _ (proj1 (validateForm_others _))).
  - destruct (solveDisabled (ui pg)); [done |].
    pose proof (handleSubmit_lookupPanel (ui pg)) as Hpanel.
    destruct (handleSubmit (ui pg)) as [s' requests]. injection Hstep as <-.
    simpl in Hpanel |- *.
    by rewrite (lookupPanel_searching _ _ (rendered_lookupPanel _ _)),
      (lookupPanel_searching _ _ Hpanel).
  - destruct (pendingSolves pg); [done |]. injection Hstep as <-. simpl.
    by rewrite (lookupPanel_searching _ _ (rendered_lookupPanel _ _)),
      (lookupPanel_searching _ _ (handleSubmit_settled_lookupPanel _ _)).
  - injection Hstep as <-. simpl.
    by rewrite (lookupPanel_searching _ _ (rendered_lookupPanel _ _)).
  - unfold searchDisabled in Hstep. destruct (searching (ui pg)) eqn:Hidle; [done |].
    simpl in Hstep. destruct (isEmpty (searchId (ui pg))); [done |].
    destruct (handleSearch_cases (ui pg)) as [(k & _ & _ & Hsearch) | [_ Hsearch]];
      rewrite Hsearch in Hstep; injection Hstep as <-; simpl;
      rewrite (lookupPanel_searching _ _ (rendered_lookupPanel _ _)); simpl;
      rewrite ?Hidle; lia.
  - destruct (pendingLookups pg) as [| k] eqn:Hpending; [done |].
    injection Hstep as <-. simpl.
    rewrite (lookupPanel_searching _ _ (rendered_lookupPanel _ _)).
    unfold handleSearch_settled. simpl. destruct (searching (ui pg)); lia.
Qed.

Lemma lookupInvariant_reachable (pg : Page) : reachable pg → lookupInvariant pg.
Proof.
  apply (reachable_invariant lookupInvariant); [done |].
  intros ? ? ? _. apply lookupInvariant_step.
Qed.

(** X12. In every reachable page the busy flag of the lookup is set exactly
    while one lookup is in flight, and there is never more than one.  A
    click on SEARCH is refused while the flag is set or the field is empty;
    an accepted click either sends one GET for the positive number [k] the
    field parses to ([infinity] included), its address ending in
    [String(k)] as [lookupRequest] has it, or, when the field parses to no
    positive number, sends nothing and stores the fixed message, keeping
    the result it had; when the lookup settles the flag is cleared. *)
Theorem lookup_is_serialized (pg : Page) :
  reachable pg →
  (pendingLookups pg ≤ 1)%nat
  ∧ (searching (ui pg) = true ↔ pendingLookups pg = 1%nat)
  ∧ (searching (ui pg) = true ∨ searchId (ui pg) = EmptyString → step pg ClickSearch = None)
  ∧ (∀ pg', step pg ClickSearch = Some pg' →
       pendingLookups pg = 0%nat
       ∧ ((∃ k, parseInt (searchId (ui pg)) = Some k ∧ 0 < k
                ∧ sent pg' = sent pg ++ [lookupRequest k]
                ∧ pendingLookups pg' = 1%nat
                ∧ searching (ui pg') = true
                ∧ searchError (ui pg') = None
                ∧ searchResult (ui pg') = JNull)
          ∨ ((¬ ∃ k, parseInt (searchId (ui pg)) = Some k ∧ 0 < k)
             ∧ sent pg' = sent pg
             ∧ pendingLookups pg' = 0%nat
             ∧ searching (ui pg') = false
             ∧ searchError (ui pg') = Some invalidIdMessage
             ∧ searchResult (ui pg') = searchResult (ui pg))))
  ∧ (∀ o pg', step pg (LookupSettled o) = Some pg' →
       searching (ui pg) = true ∧ searching (ui pg') = false ∧ pendingLookups pg' = 0%nat).
Proof.
  intros Hpg. pose proof (lookupInvariant_reachable pg Hpg) as Hinv.
  unfold lookupInvariant in Hinv.
  split; [destruct (searching (ui pg)); lia |].
  split; [destruct (searching (ui pg)); split; (done || lia) |].
  split.
  { intros [Hbusy | Hempty]; simpl; unfold searchDisabled.
    - by rewrite Hbusy.
    - by rewrite Hempty, orb_true_r. }
  split.
  - intros pg' Hstep. simpl in Hstep. unfold searchDisabled in Hstep.
    destruct (searching (ui pg)) eqn:Hidle; [done |]. split; [done |].
    simpl in Hstep. destruct (isEmpty (searchId (ui pg))); [done |].
    destruct (handleSearch_cases (ui pg)) as [(k & Hk & Hpos & Hsearch) | [Hbad Hsearch]];
      rewrite Hsearch in Hstep; injection Hstep as <-; simpl;
      rewrite (rendered_unchanged (ui pg)) by done; simpl.
    + left. exists k. repeat split; try done. lia.
    + right. repeat split; try done; [by rewrite app_nil_r | lia].
  - intros o pg' Hstep. simpl in Hstep.
    destruct (pendingLookups pg) as [| k] eqn:Hpending; [done |].
    injection Hstep as <-. simpl.
    rewrite (lookupPanel_searching _ _ (rendered_lookupPanel _ _)).
    unfold handleSearch_settled. simpl.
    destruct (searching (ui pg)); [| done]. repeat split; try done. lia.
Qed.

Lemma looking5_run : run_events start looking5 = Some looking5_page.
Proof. by vm_compute. Qed.

Lemma lookup_is_serialized_witness :
  (pendingLookups looking5_page ≤ 1)%nat
  ∧ (searching (ui looking5_page) = true ↔ pendingLookups looking5_page = 1%nat)
  ∧ (searching (ui looking5_page) = true ∨ searchId (ui looking5_page) = EmptyString →
       step looking5_page ClickSearch = None)
  ∧ (∀ o pg', step looking5_page (LookupSettled o) = Some pg' →
       searching (ui looking5_page) = true ∧ searching (ui pg') = false
       ∧ pendingLookups pg' = 0%nat).
Proof.
  destruct (lookup_is_serialized looking5_page) as (Hone & Hflag & Hrefused & _ & Hsettled).
  - exact (run_events_reachable looking5 start looking5_page reachable_start looking5_run).
  - split; [exact Hone | split; [exact Hflag | split; [exact Hrefused | exact Hsettled]]].
Defined.

(** ** What the alerts show *)

Lemma alertsInvariant_same (s s' : State) :
  solveOutcome s' = solveOutcome s → alertsInvariant s → alertsInvariant s'.
Proof. unfold solveOutcome, alertsInvariant. intros [= -> -> ->]. done. Qed.

Lemma solvePanel_solveOutcome (s s' : State) :
  solvePanel s' = solvePanel s → solveOutcome s' = solveOutcome s.
Proof. unfold solvePanel, solveOutcome. congruence. Qed.

Lemma handleSubmit_solveOutcome (s : State) :
  solveOutcome (fst (handleSubmit s)) = solveOutcome s
  ∨ solveOutcome (fst (handleSubmit s)) = (JNull, None, true).
Proof.
  unfold handleSubmit. pose proof (validateForm_others s) as [_ Houtcome].
  destruct (validateForm s) as [valid s1]. simpl in Houtcome. destruct valid; simpl; auto.
Qed.

Lemma handleSubmit_settled_alerts (o : Outcome) (s : State) :
  result s = JNull → error s = None → alertsInvariant (handleSubmit_settled o s).
Proof.
  intros Hresult Herror. unfold handleSubmit_settled, alertsInvariant.
  destruct (run (solveAnswer o)); simpl; (split; [done |]); [by left | by right].
Qed.

Lemma alertsInvariant_step (pg pg' : Page) (e : Event) :
  reachable pg → alertsInvariant (ui pg) → step pg e = Some pg' → alertsInvariant (ui pg').
Proof.
  intros Hpg Hinv Hstep. destruct e; simpl in Hstep.
  - injection Hstep as <-. simpl. eapply alertsInvariant_same; [| exact Hinv].
    by rewrite rendered_solveOutcome, (proj2 (handleNumericInputChange_others _ _ _ _ _)).
  - injection Hstep as <-. simpl. eapply alertsInvariant_same; [| exact Hinv].
    by rewrite rendered_solveOutcome, (proj2 (handleNumericInputChange_others _ _ _ _ _)).
  - injection Hstep as <-. simpl. eapply alertsInvariant_same; [| exact Hinv].
    by rewrite rendered_solveOutcome, (proj2 (handleNumericInputChange_others _ _ _ _ _)).
  - destruct (validDimensions (ui pg)); [| done].
    destruct (handleMatrixCellChange rowIndex colIndex value (ui pg)) as [s' |] eqn:Hcell;
      [| done].
    injection Hstep as <-. simpl. eapply alertsInvariant_same; [| exact Hinv].
    apply handleMatrixCellChange_others in Hcell as [_ Houtcome].
    by rewrite rendered_solveOutcome.
  - injection Hstep as <-. simpl. eapply alertsInvariant_same; [| exact Hinv].
    by rewrite rendered_solveOutcome, (proj2 (validateForm_others _)).
  - destruct (solveDisabled (ui pg)); [done |].
    pose proof (handleSubmit_solveOutcome (ui pg)) as Houtcome.
    destruct (handleSubmit (ui pg)) as [s' requests]. injection Hstep as <-.
    simpl in Houtcome |- *. destruct Houtcome as [Hsame | Hreset].
    + eapply alertsInvariant_same; [| exact Hinv]. by rewrite rendered_solveOutcome.
    + pose proof (rendered_solveOutcome (ui pg) s') as Hrendered. rewrite Hreset in Hrendered.
      unfold solveOutcome in Hrendered. injection Hrendered as Hresult Herror Hloading.
      unfold alertsInvariant. rewrite Hresult, Herror. auto.
  - pose proof (solveInvariant_reachable pg Hpg) as Hsolve. unfold solveInvariant in Hsolve.
    destruct (pendingSolves pg) as [| k]; [done |]. injection Hstep as <-. simpl.
    destruct (loading (ui pg)) eqn:Hbusy; [| done].
    destruct Hinv as [Hempty _]. destruct (Hempty Hbusy) as [Hresult Herror].
    eapply alertsInvariant_same; [apply rendered_solveOutcome |].
    by apply handleSubmit_settled_alerts.
  - injection Hstep as <-. simpl. eapply alertsInvariant_same; [| exact Hinv].
    by rewrite rendered_solveOutcome.
  - destruct (searchDisabled (ui pg)); [done |].
    pose proof (handleSearch_solvePanel (ui pg)) as Hpanel.
    destruct (handleSearch (ui pg)) as [s' requests]. injection Hstep as <-.
    simpl in Hpanel |- *. eapply alertsInvariant_same; [| exact Hinv].
    rewrite rendered_solveOutcome. by apply solvePanel_solveOutcome.
  - destruct (pendingLookups pg); [done |]. injection Hstep as <-. simpl.
    eapply alertsInvariant_same; [| exact Hinv].
    rewrite rendered_solveOutcome.
    apply solvePanel_solveOutcome, handleSearch_settled_solvePanel.
Qed.

(** X13. In every reachable page the solve panel shows at most one of its
    two alerts, the result or the error, and shows neither while a solve
    request is in flight. *)
Theorem solve_panel_shows_one_alert (pg : Page) :
  reachable pg →
  (resultAlert (ui pg) = Hidden ∨ errorAlert (ui pg) = Hidden)
  ∧ (loading (ui pg) = true →
       resultAlert (ui pg) = Hidden ∧ errorAlert (ui pg) = Hidden).
Proof.
  intros Hpg.
  assert (alertsInvariant (ui pg)) as [Hbusy Hone].
  { induction Hpg as [| pg e pg' Hpg IH Hstep]; [by split; auto |].
    by eapply alertsInvariant_step. }
  unfold resultAlert, errorAlert. split.
  - destruct Hone as [-> | ->]; auto.
  - intros Hloading. destruct (Hbusy Hloading) as [-> ->]. auto.
Qed.

Lemma solve_panel_shows_one_alert_witness :
  (resultAlert (ui solving2x2_page) = Hidden ∨ errorAlert (ui solving2x2_page) = Hidden)
  ∧ (loading (ui solving2x2_page) = true →
       resultAlert (ui solving2x2_page) = Hidden ∧ errorAlert (ui solving2x2_page) = Hidden).
Proof.
  apply (solve_panel_shows_one_alert solving2x2_page).
  exact (run_events_reachable solving2x2 start solving2x2_page reachable_start solving2x2_run).
Defined.

(** X15. The guard of [handleSearch] does not clear the result of an
    earlier lookup: when the field holds no positive integer and a result
    is held, the fixed message is stored, the result stays, and the error
    alert of the lookup panel, which is drawn only when no result is held,
    stays hidden. *)
Theorem refused_id_leaves_the_old_result (s : State) :
  (¬ ∃ k, parseInt (searchId s) = Some k ∧ 0 < k) →
  truthy (searchResult s) = true →
  searchError (fst (handleSearch s)) = Some invalidIdMessage
  ∧ searchResult (fst (handleSearch s)) = searchResult s
  ∧ searchErrorAlert (fst (handleSearch s)) = Hidden
  ∧ snd (handleSearch s) = [].
Proof.
  intros Hbad Hheld.
  destruct (handleSearch_cases s) as [(k & Hk & Hpos & _) | [_ ->]];
    [destruct Hbad; eauto |].
  unfold searchErrorAlert. simpl. rewrite Hheld. simpl. done.
Qed.

Lemma staleResult_run : run_events start staleResult = Some staleResult_page.
Proof. by vm_compute. Qed.

Lemma refused_id_leaves_the_old_result_witness :
  run_events start staleResult = Some staleResult_page
  ∧ searchError (ui staleResult_page) = Some invalidIdMessage
  ∧ searchResult (ui staleResult_page) = answer5
  ∧ searchErrorAlert (ui staleResult_page) = Hidden.
Proof.
  split; [exact staleResult_run |].
  destruct (refused_id_leaves_the_old_result (setSearchResult answer5 (setSearchId "0" initial)))
    as (Herror & Hresult & Hhidden & _).
  - intros (k & Hk & Hpos). vm_compute in Hk. injection Hk as <-. lia.
  - reflexivity.
  - split; [exact Herror | split; [exact Hresult | exact Hhidden]].
Defined.

(** ** The effect and the errors of the cells *)

Lemma cellError_resizeEffect_valid (s : State) (key : string) :
  validDimensions s = true → cellError (resizeEffect s) key = None.
Proof.
  intros Hvalid. unfold resizeEffect, cellError. rewrite Hvalid.
  case_bool_decide as Hshown; destruct (resized _ _ _); simpl.
  - apply lookup_empty.
  - apply lookup_empty.
  - destruct (ValidationErrors.matrix (validationErrors s)) as [shown |]; [| done].
    destruct Hshown. by eexists.
  - destruct (ValidationErrors.matrix (validationErrors s)) as [shown |]; [| done].
    destruct Hshown. by eexists.
Qed.

Lemma step_rendered (pg pg' : Page) (e : Event) :
  step pg e = Some pg' → ∃ after, ui pg' = rendered (ui pg) after.
Proof.
  intros Hstep. destruct e; simpl in Hstep.
  - injection Hstep as <-. by eexists.
  - injection Hstep as <-. by eexists.
  - injection Hstep as <-. by eexists.
  - destruct (validDimensions (ui pg)); [| done].
    destruct (handleMatrixCellChange rowIndex colIndex value (ui pg)) as [s' |]; [| done].
    injection Hstep as <-. by eexists.
  - injection Hstep as <-. by eexists.
  - destruct (solveDisabled (ui pg)); [done |].
    destruct (handleSubmit (ui pg)) as [s' requests]. injection Hstep as <-. by eexists.
  - destruct (pendingSolves pg); [done |]. injection Hstep as <-. by eexists.
  - injection Hstep as <-. by eexists.
  - destruct (searchDisabled (ui pg)); [done |].
    destruct (handleSearch (ui pg)) as [s' requests]. injection Hstep as <-. by eexists.
  - destruct (pendingLookups pg); [done |]. injection Hstep as <-. by eexists.
Qed.

(** X9. When an event changes N or M and leaves both dimensions positive
    integers, the effect drops every cell error: no key has one and no field
    of the new grid shows one.  When it leaves a dimension invalid, the grid
    is emptied. *)
Theorem resize_drops_the_cell_errors (pg pg' : Page) (e : Event) :
  step pg e = Some pg' →
  n (ui pg') ≠ n (ui pg) ∨ m (ui pg') ≠ m (ui pg) →
  (validDimensions (ui pg') = true →
     (∀ key, cellError (ui pg') key = None)
     ∧ match renderMatrixInputs (ui pg') with
       | Grid _ fields => Forall (fun field => TextField.helperText field = None) fields
       | EnterDimensions => False
       end)
  ∧ (validDimensions (ui pg') = false → matrix (ui pg') = []).
Proof.
  intros Hstep Hchanged.
  assert (∃ after, ui pg' = resizeEffect after) as [after Hui].
  { destruct (step_rendered pg pg' e Hstep) as [after Hui]. exists after.
    rewrite Hui in Hchanged |- *. unfold rendered in *.
    destruct (String.eqb_spec (n (ui pg)) (n after)) as [Hn | _]; [| done].
    destruct (String.eqb_spec (m (ui pg)) (m after)) as [Hm | _]; [| done].
    simpl in Hchanged. destruct Hchanged; congruence. }
  assert (validDimensions (ui pg') = validDimensions after) as Hsame.
  { rewrite Hui. unfold validDimensions, numN, numM.
    by rewrite resizeEffect_n, resizeEffect_m. }
  split.
  - intros Hvalid. rewrite Hsame in Hvalid.
    assert (∀ key, cellError (ui pg') key = None) as Hnone.
    { intros key. rewrite Hui. by apply cellError_resizeEffect_valid. }
    split; [done |].
    unfold renderMatrixInputs. rewrite renderMatrixInputs_condition, Hsame, Hvalid. simpl.
    apply Forall_forall. intros field Hfield.
    apply elem_of_fields in Hfield as (i & j & c & _ & ->). simpl. apply Hnone.
  - intros Hinvalid. rewrite Hsame in Hinvalid. rewrite Hui.
    by apply matrix_resizeEffect_invalid.
Qed.

Lemma resize_drops_the_cell_errors_witness :
  cellError (ui blurred2x2_page) (cellKey 0 1) = Some "Required"
  ∧ (∀ key, cellError (ui widened_page) key = None)
  ∧ length (matrix (ui widened_page)) = 3%nat.
Proof.
  destruct (resize_drops_the_cell_errors blurred2x2_page widened_page (ChangeN "3"))
    as [Hvalid _]; [reflexivity | left; discriminate |].
  destruct (Hvalid eq_refl) as [Hnone _].
  split; [reflexivity | split; [exact Hnone | reflexivity]].
Defined.
